(** * personal-blog: locale routing, dictionary dispatch and MDX content loading

    A shallow embedding of
    - [lib/locale.ts], [middleware.ts] and [lib/dictionary.ts] as they are
      given in the internationalization post of the blog, and
    - [lib/markdown.ts] ([getAllMetaData], [readMDX], [estimateReadingTime]),
    followed by the properties the specification states about them.

    Conventions.  A JavaScript string is modelled by [string], the sequence
    of its code units, of which the model has those below 256; a JavaScript
    number that holds an integer (an epoch-millisecond timestamp, an array
    index, a length) by [Z]; [undefined] and [null] by [None]. *)

From Stdlib Require Import String Ascii List ZArith Lia Bool.
From Stdlib Require Import Permutation Sorted.
Import ListNotations.

Open Scope string_scope.
Open Scope Z_scope.

(** ** The parts of the JavaScript runtime the code calls *)

Module JS.

(** [s.split(sep)] for a separator of one character: the pieces between
    the occurrences of [sep], the empty pieces included. *)
Fixpoint split (sep : ascii) (s : string) : list string :=
  match s with
  | EmptyString => [EmptyString]
  | String c r =>
      if Ascii.eqb c sep then EmptyString :: split sep r
      else match split sep r with
           | h :: t => String c h :: t
           | [] => [String c EmptyString]
           end
  end.

(** [Boolean(s)] for a string: the empty string is the only falsy one. *)
Definition truthy (s : string) : bool :=
  match s with
  | EmptyString => false
  | String _ _ => true
  end.

(** [s.startsWith(p)]. *)
Definition startsWith (s p : string) : bool := String.prefix p s.

(** [arr.includes(x)] where [x] may be [undefined]: an array of strings
    never includes [undefined]. *)
Definition includes (arr : list string) (x : option string) : bool :=
  match x with
  | Some s => existsb (String.eqb s) arr
  | None => false
  end.

(** [arr.some(p)]. *)
Definition some {A : Type} (p : A -> bool) (arr : list A) : bool :=
  existsb p arr.

(** [arr[i]] for a number [i]: [undefined] out of range, also for a
    negative [i]. *)
Definition get {A : Type} (arr : list A) (i : Z) : option A :=
  if i <? 0 then None else nth_error arr (Z.to_nat i).

(** [arr.findIndex(p)]: the index of the first element that satisfies [p],
    and [-1] when there is none. *)
Fixpoint findIndex {A : Type} (p : A -> bool) (arr : list A) : Z :=
  match arr with
  | [] => -1
  | x :: r =>
      if p x then 0
      else let i := findIndex p r in if i =? -1 then -1 else i + 1
  end.

(** [arr.sort(cmp)] sorts stably (ECMAScript 2019): [x] goes before [y] when
    [cmp x y < 0], after it when [cmp x y > 0], and two elements that compare
    equal keep their order.  For a comparator that is consistent this fixes
    the result, which is what the stable insertion sort below computes. *)
Fixpoint insert {A : Type} (cmp : A -> A -> Z) (x : A) (l : list A) : list A :=
  match l with
  | [] => [x]
  | y :: r => if cmp x y <=? 0 then x :: y :: r else y :: insert cmp x r
  end.

Definition sort {A : Type} (cmp : A -> A -> Z) (l : list A) : list A :=
  fold_right (insert cmp) [] l.

(** The characters [\s] matches, among the code units below 256: tab, line
    feed, vertical tab, form feed, carriage return, space and no-break
    space. *)
Definition isSpace (c : ascii) : bool :=
  let n := nat_of_ascii c in
  ((9 <=? n) && (n <=? 13) || (n =? 32) || (n =? 160))%nat.

(** [text.split(/\s+/)]: the pieces between the maximal runs of white
    space.  [pending] is the piece being read; [inRun] tells that the
    previous character was white space, so that a run of several separates
    once. *)
Fixpoint splitSpacesFrom (pending : string) (inRun : bool) (s : string)
  : list string :=
  match s with
  | EmptyString => [pending]
  | String c r =>
      if isSpace c then
        if inRun then splitSpacesFrom pending true r
        else pending :: splitSpacesFrom EmptyString true r
      else splitSpacesFrom (pending ++ String c EmptyString) false r
  end.

Definition splitSpaces (text : string) : list string :=
  splitSpacesFrom EmptyString false text.

(** [Math.ceil(n / d)] for integers [0 <= n] and [0 < d]: the quotient is
    computed in floating point, and for the lengths of arrays (below [2^32])
    its ceiling is the ceiling of the exact quotient. *)
Definition ceilDiv (n d : Z) : Z := (n + d - 1) / d.

End JS.

(** ** [lib/locale.ts] *)

Module Locale.

Definition locales : list string := ["en"; "fr"; "ja"].

(** [locales[0]] *)
Definition defaultLocale : string := hd EmptyString locales.

Definition getLocale (pathname : string) : string :=
  let locale := hd_error (filter JS.truthy (JS.split "/" pathname)) in
  if JS.includes locales locale
  then match locale with Some l => l | None => defaultLocale end
  else defaultLocale.

Definition pathnameHasLocale (pathname : string) : bool :=
  JS.some
    (fun locale =>
       JS.startsWith pathname ("/" ++ locale ++ "/")
       || String.eqb pathname ("/" ++ locale))
    locales.

End Locale.

(** ** [middleware.ts] *)

Module Middleware.

(** What the middleware returns: nothing, or the response
    [NextResponse.redirect(request.nextUrl)], whose location the framework
    derives from the URL object of the request. *)
Inductive Response : Type :=
| Redirect (location : string).

Section Framework.

(** The location the framework writes for the URL object of the request
    when the pathname of that object is the given one.  It is the
    framework's, and need not show the pathname as it was assigned: a
    trailing slash is dropped or added as the application is configured.
    The middleware changes nothing else of the URL. *)
Variable href : string -> string.

(** The request's [nextUrl.pathname] is a field the middleware assigns to:
    the middleware is a function of that field which returns its result
    together with the field's final value. *)
Definition middleware (pathname : string) : option Response * string :=
  let hasLocale := Locale.pathnameHasLocale pathname in
  if hasLocale then (None, pathname)
  else
    let locale := Locale.getLocale pathname in
    let pathname' := "/" ++ locale ++ pathname in
    (Some (Redirect (href pathname')), pathname').

End Framework.

End Middleware.

(** ** [lib/dictionary.ts] *)

Module Dictionary.

(** The methods every object literal inherits from [Object.prototype]. *)
Inductive Builtin : Type :=
| constructor | hasOwnProperty | isPrototypeOf | propertyIsEnumerable
| toLocaleString | toString | valueOf
| defineGetter | defineSetter | lookupGetter | lookupSetter.

(** What [dictionaries[key]] evaluates to. *)
Inductive Slot : Type :=
| Loader (json : string)      (* an own property: [() => import(json)...] *)
| Inherited (b : Builtin)     (* a function found on the prototype *)
| Prototype                   (* [__proto__]: an object, not a function *)
| Missing.                    (* [undefined] *)

Inductive Value : Type :=
| Dict (json : string)        (* [module.default] of the JSON module *)
| Str (s : string)
| Boolean (b : bool)
| Undefined
| EmptyObject
| Table.                      (* the [dictionaries] object itself *)

Inductive Outcome : Type :=
| Resolved (v : Value)
| RejectedTypeError.

(** The object literal [dictionaries]: its own properties, each a loader
    of the JSON module named. *)
Definition dictionaries : list (string * string) :=
  [("en", "@/dict/en.json"); ("ja", "@/dict/ja.json")].

Definition objectPrototype : list (string * Builtin) :=
  [("constructor", constructor); ("hasOwnProperty", hasOwnProperty);
   ("isPrototypeOf", isPrototypeOf);
   ("propertyIsEnumerable", propertyIsEnumerable);
   ("toLocaleString", toLocaleString); ("toString", toString);
   ("valueOf", valueOf);
   ("__defineGetter__", defineGetter); ("__defineSetter__", defineSetter);
   ("__lookupGetter__", lookupGetter); ("__lookupSetter__", lookupSetter)].

Fixpoint assoc {B : Type} (key : string) (l : list (string * B)) : option B :=
  match l with
  | [] => None
  | (k, v) :: r => if String.eqb key k then Some v else assoc key r
  end.

(** [dictionaries[locale]]: the own properties first, then the prototype. *)
Definition lookup (locale : string) : Slot :=
  match assoc locale dictionaries with
  | Some json => Loader json
  | None =>
      match assoc locale objectPrototype with
      | Some b => Inherited b
      | None => if String.eqb locale "__proto__" then Prototype else Missing
      end
  end.

(** An inherited method called with [this] the table and no argument. *)
Definition callBuiltin (b : Builtin) : Outcome :=
  match b with
  | constructor => Resolved EmptyObject
  | hasOwnProperty | isPrototypeOf | propertyIsEnumerable =>
      Resolved (Boolean false)
  | toLocaleString | toString => Resolved (Str "[object Object]")
  | valueOf => Resolved Table
  | defineGetter | defineSetter => RejectedTypeError
  | lookupGetter | lookupSetter => Resolved Undefined
  end.

(** [async (locale) => dictionaries[locale]()]: calling what is not a
    function throws a [TypeError], which the [async] function turns into a
    rejected promise. *)
Definition getDictionary (locale : string) : Outcome :=
  match lookup locale with
  | Loader json => Resolved (Dict json)
  | Inherited b => callBuiltin b
  | Prototype | Missing => RejectedTypeError
  end.

Definition isDictionary (o : Outcome) : bool :=
  match o with
  | Resolved (Dict _) => true
  | _ => false
  end.

Definition fails (o : Outcome) : bool :=
  match o with
  | RejectedTypeError => true
  | Resolved _ => false
  end.

End Dictionary.

(** ** [components/lang-select.tsx] *)

Module LangSelect.

(** The codes of [available_locales], in its order. *)
Definition availableCodes : list string := ["en"; "ja"].

(** [[a-z]] *)
Definition isLower (c : ascii) : bool :=
  let n := nat_of_ascii c in ((97 <=? n) && (n <=? 122))%nat.

(** [s.replace(/\/[a-z]{2}/, replacement)] for a [replacement] that has no
    [$] in it: the leftmost slash that two lower-case letters follow is
    replaced, with the two letters, and nothing else is. *)
Fixpoint replaceFirst (replacement : string) (s : string) : string :=
  match s with
  | EmptyString => EmptyString
  | String c r =>
      match r with
      | String a (String b rest) =>
          if Ascii.eqb c "/" && isLower a && isLower b
          then replacement ++ rest
          else String c (replaceFirst replacement r)
      | _ => String c (replaceFirst replacement r)
      end
  end.

(** [handleChangeLocale]: the path it hands to [router.push], for the
    [pathname] the hook gave. *)
Definition handleChangeLocale (pathname newLocale : string) : string :=
  replaceFirst ("/" ++ newLocale) pathname.

End LangSelect.

(** ** Arrays that are sorted in place

    [Array.prototype.sort] reorders the array it is called on and returns
    that same array; what is read from the array afterwards is read from
    the sorted one.  A computation over the one array the loaders build is a
    function from the array to a result and the array it leaves. *)

Module Arr.

Definition M (A R : Type) : Type := list A -> R * list A.

Definition ret {A R : Type} (r : R) : M A R := fun arr => (r, arr).

Definition bind {A R R' : Type} (m : M A R) (k : R -> M A R') : M A R' :=
  fun arr => let (r, arr') := m arr in k r arr'.

(** [arr.sort(cmp)] *)
Definition sort {A : Type} (cmp : A -> A -> Z) : M A (list A) :=
  fun arr => let sorted := JS.sort cmp arr in (sorted, sorted).

(** [arr[i]] *)
Definition at_ {A : Type} (i : Z) : M A (option A) :=
  fun arr => (JS.get arr i, arr).

(** the array as it is now *)
Definition read {A : Type} : M A (list A) := fun arr => (arr, arr).

Definition run {A R : Type} (m : M A R) (arr : list A) : R := fst (m arr).

End Arr.

Declare Scope arr_scope.
Delimit Scope arr_scope with arr.
Notation "x <- m ;; k" := (Arr.bind m (fun x => k))
  (at level 61, m at next level, right associativity) : arr_scope.

(** ** [Map]

    A [Map] keeps its entries in the order the keys were first set; [set]
    on a key that is there replaces the value where it is. *)

Module JSMap.

Definition t (V : Type) : Type := list (string * V).

Definition empty {V : Type} : t V := [].

Fixpoint get {V : Type} (key : string) (m : t V) : option V :=
  match m with
  | [] => None
  | (k, v) :: r => if String.eqb key k then Some v else get key r
  end.

Fixpoint set {V : Type} (key : string) (value : V) (m : t V) : t V :=
  match m with
  | [] => [(key, value)]
  | (k, v) :: r =>
      if String.eqb key k then (k, value) :: r else (k, v) :: set key value r
  end.

Definition keys {V : Type} (m : t V) : list string := map fst m.

Definition values {V : Type} (m : t V) : list V := map snd m.

End JSMap.

(** ** [lib/markdown.ts] *)

Module Markdown.

Record MDXFrontmatter : Type := {
  title : string;
  slug : string;
  description : string;
  author : string;
  published : Z;
  tags : list string;
  githubUrl : option string
}.

(** [estimateReadingTime] *)
Definition wordsPerMinute : Z := 200.

Definition estimateReadingTime (text : string) : Z :=
  let wordCount := Z.of_nat (List.length (JS.splitSpaces text)) in
  let readingTimeMinutes := JS.ceilDiv wordCount wordsPerMinute in
  readingTimeMinutes.

Section Loader.

(** The compiled body is opaque, and [compileMDX] (of next-mdx-remote)
    is the library's: both are parameters.  A collection is the list of the
    contents of its files, in the order [fs.readdir] lists them. *)
Variable Content : Type.

Record Compiled : Type := {
  content : Content;
  frontmatter : MDXFrontmatter
}.

Variable compileMDX : string -> Compiled.

(** An element of the array [readMDX] builds:
    [{ ...parsed, timeToRead: estimateReadingTime(fileContent) }]. *)
Record Document : Type := {
  parsed : Compiled;
  timeToRead : Z
}.

Definition meta (d : Document) : MDXFrontmatter := frontmatter (parsed d).

Record Pagination : Type := {
  previous : option MDXFrontmatter;
  current : option Document;
  next : option MDXFrontmatter
}.

(** [(a, b) => b.published - a.published] *)
Definition byPublishedDesc (a b : MDXFrontmatter) : Z :=
  published b - published a.

(** [(a, b) => a.frontmatter.published - b.frontmatter.published] *)
Definition byPublishedAsc (a b : Document) : Z :=
  published (meta a) - published (meta b).

(** [(item) => item.tags.includes(tag)] *)
Definition hasTag (tag : string) (item : MDXFrontmatter) : bool :=
  JS.includes (tags item) (Some tag).

Definition getAllMetaData (files : list string) (tag : string)
  : list MDXFrontmatter :=
  let result := map (fun file => frontmatter (compileMDX file)) files in
  Arr.run
    (_ <- Arr.sort byPublishedDesc ;;
     arr <- Arr.read ;;
     Arr.ret (if JS.truthy tag then filter (hasTag tag) arr else arr))%arr
    result.

(** [(item) => { map.set(item, (map.get(item) ?? 0) + 1) }] *)
Definition countTag (map_ : JSMap.t Z) (item : string) : JSMap.t Z :=
  JSMap.set item
    (match JSMap.get item map_ with Some n => n | None => 0 end + 1) map_.

Definition getAllTags (files : list string) : JSMap.t Z :=
  let metas := getAllMetaData files EmptyString in
  fold_left countTag (concat (map tags metas)) JSMap.empty.

Definition load (fileContent : string) : Document :=
  {| parsed := compileMDX fileContent;
     timeToRead := estimateReadingTime fileContent |}.

Definition readMDX (files : list string) (slug_ : string)
  : option Pagination :=
  let result := map load files in
  Arr.run
    (sorted <- Arr.sort byPublishedAsc ;;
     let index :=
       JS.findIndex (fun item => String.eqb (slug (meta item)) slug_) sorted in
     if index =? -1 then Arr.ret None
     else
       previous_ <- Arr.at_ (index + 1) ;;
       current_ <- Arr.at_ index ;;
       next_ <- Arr.at_ (index - 1) ;;
       Arr.ret (Some {| previous := option_map meta previous_;
                        current := current_;
                        next := option_map meta next_ |}))%arr
    result.

End Loader.

Arguments content {Content}.
Arguments frontmatter {Content}.
Arguments parsed {Content}.
Arguments timeToRead {Content}.
Arguments meta {Content}.
Arguments previous {Content}.
Arguments current {Content}.
Arguments next {Content}.
Arguments byPublishedAsc {Content}.
Arguments getAllMetaData {Content}.
Arguments getAllTags {Content}.
Arguments load {Content}.
Arguments readMDX {Content}.

End Markdown.

(** ** [getAllMetaData] on the objects the parser really yields

    [compileMDX<MDXFrontmatter>] takes the frontmatter type as a type
    argument and does not check it: the object it returns has the keys the
    file's frontmatter block has, with the values the block gives them, and
    reading any other key gives [undefined].  [Runtime] is [getAllMetaData]
    over such objects. *)

Module Runtime.

(** An element of an array of the block. *)
Inductive Element : Type :=
| EString (s : string)
| EOther.                     (* an element that is not a string *)

(** A value of the block. *)
Inductive Value : Type :=
| VString (s : string)
| VNumber (n : Z)
| VArray (elements : list Element)
| VOther.                     (* null, a boolean, a mapping, a date *)

Record Frontmatter : Type := {
  title : option Value;
  slug : option Value;
  description : option Value;
  author : option Value;
  published : option Value;
  tags : option Value;
  githubUrl : option Value
}.

(** One of the six keys the declared type requires is absent. *)
Definition malformed (f : Frontmatter) : bool :=
  match title f, slug f, description f, author f, published f, tags f with
  | Some _, Some _, Some _, Some _, Some _, Some _ => false
  | _, _, _, _, _, _ => true
  end.

Inductive Completion (A : Type) : Type :=
| Normal (a : A)
| ThrowTypeError.

Arguments Normal {A}.
Arguments ThrowTypeError {A}.

(** [s.includes(t)] for two strings: [t] occurs in [s]. *)
Fixpoint stringIncludes (s t : string) : bool :=
  String.prefix t s
  || match s with
     | EmptyString => false
     | String _ r => stringIncludes r t
     end.

(** [elements.includes(tag)] for a string [tag]: only an element that is
    that string is the same value. *)
Definition arrayIncludes (elements : list Element) (tag : string) : bool :=
  existsb (fun e => match e with
                    | EString s => String.eqb s tag
                    | EOther => false
                    end) elements.

(** [(item) => item.tags.includes(tag)]: an array is searched for the
    element, a string for the substring; reading [includes] of [undefined]
    or [null] throws, and so does calling the [includes] that a number, a
    boolean, a mapping or a date does not have. *)
Definition hasTag (tag : string) (item : Frontmatter) : Completion bool :=
  match tags item with
  | Some (VArray elements) => Normal (arrayIncludes elements tag)
  | Some (VString s) => Normal (stringIncludes s tag)
  | Some (VNumber _) | Some VOther | None => ThrowTypeError
  end.

(** [arr.filter(p)] for a predicate that can throw: the first throw ends
    the call. *)
Fixpoint filter {A : Type} (p : A -> Completion bool) (arr : list A)
  : Completion (list A) :=
  match arr with
  | [] => Normal []
  | x :: r =>
      match p x with
      | ThrowTypeError => ThrowTypeError
      | Normal b =>
          match filter p r with
          | ThrowTypeError => ThrowTypeError
          | Normal r' => Normal (if b then x :: r' else r')
          end
      end
  end.

Section Engine.

(** [(await result).sort((a, b) => b.published - a.published)] on such
    objects.  The difference is [NaN] as soon as an operand is absent or is
    no number; the comparator is then not consistent, and the order the
    array is left in is the engine's own.  [sortByPublished] is the array
    the engine leaves; all that is assumed of it, where something is, is
    that it is a permutation of the array it was given. *)
Variable sortByPublished : list Frontmatter -> list Frontmatter.

Definition getAllMetaData (compileMDX : string -> Frontmatter)
  (files : list string) (tag : string) : Completion (list Frontmatter) :=
  let result := map compileMDX files in
  Arr.run
    (_ <- (fun arr => (tt, sortByPublished arr)) ;;
     arr <- Arr.read ;;
     Arr.ret (if JS.truthy tag then filter (hasTag tag) arr
              else Normal arr))%arr
    result.

End Engine.

End Runtime.

(** ** Vocabulary of the specification *)

Module Spec.

(** The words of a text: its maximal runs of characters that are not
    white space.  [inWord] tells that the previous character belongs to a
    word. *)
Fixpoint wordCountFrom (inWord : bool) (s : string) : nat :=
  match s with
  | EmptyString => 0
  | String c r =>
      if JS.isSpace c then wordCountFrom false r
      else ((if inWord then 0 else 1) + wordCountFrom true r)%nat
  end.

Definition wordCount (text : string) : nat := wordCountFrom false text.

(** The text is empty or begins with white space. *)
Definition leadingGap (text : string) : bool :=
  match text with
  | EmptyString => true
  | String c _ => JS.isSpace c
  end.

(** The text ends with white space. *)
Fixpoint trailingGap (text : string) : bool :=
  match text with
  | EmptyString => false
  | String c EmptyString => JS.isSpace c
  | String _ r => trailingGap r
  end.

(** The tokens that white space delimits in a text: each maximal run of
    white space is one delimiter, and delimiters are one fewer than the
    tokens they lie between.  [inRun] tells that the previous character was
    white space. *)
Fixpoint spaceRunsFrom (inRun : bool) (s : string) : nat :=
  match s with
  | EmptyString => 0
  | String c r =>
      if JS.isSpace c
      then ((if inRun then 0 else 1) + spaceRunsFrom true r)%nat
      else spaceRunsFrom false r
  end.

Definition tokenCount (text : string) : nat := S (spaceRunsFrom false text).

(** Whether the text read so far ends in white space once [s] is appended,
    [prevSpace] telling it of the text before [s]. *)
Definition gapAfter (prevSpace : bool) (s : string) : bool :=
  match s with
  | EmptyString => prevSpace
  | String _ _ => trailingGap s
  end.

(** [k] is the ceiling of [n / d]. *)
Definition isCeilingOf (k n d : Z) : Prop := d * (k - 1) < n <= d * k.

(** [n] times the word [w], one space between two of them. *)
Fixpoint wordsOf (w : string) (n : nat) : string :=
  match n with
  | O => EmptyString
  | S O => w
  | S m => w ++ " " ++ wordsOf w m
  end.

(** [P] begins with [p]. *)
Definition beginsWith (P p : string) : Prop := exists rest, P = p ++ rest.

(** [l] is in ascending order of [key]. *)
Definition ascendingBy {A : Type} (key : A -> Z) (l : list A) : Prop :=
  StronglySorted (fun a b => key a <= key b) l.

(** The array [readMDX] reads from after the sort. *)
Definition sortedDocs {Content : Type}
  (compileMDX : string -> Markdown.Compiled Content) (files : list string)
  : list (Markdown.Document Content) :=
  JS.sort Markdown.byPublishedAsc (map (Markdown.load compileMDX) files).

(** The document has the slug. *)
Definition hasSlug {Content : Type} (slug_ : string)
  (item : Markdown.Document Content) : bool :=
  String.eqb (Markdown.slug (Markdown.meta item)) slug_.

(** [l] is in descending order of [key]. *)
Definition descendingBy {A : Type} (key : A -> Z) (l : list A) : Prop :=
  StronglySorted (fun a b => key b <= key a) l.

(** [s] is a slash and two lower-case letters, and whatever follows. *)
Definition localeLike (s : string) : Prop :=
  exists a b rest,
    s = String "/" (String a (String b rest)) /\
    LangSelect.isLower a = true /\ LangSelect.isLower b = true.

(** The [tags] of the object cannot be searched: the key is absent, or
    its value is neither an array nor a string. *)
Definition tagsUnusable (item : Runtime.Frontmatter) : Prop :=
  match Runtime.tags item with
  | Some (Runtime.VArray _) | Some (Runtime.VString _) => False
  | Some (Runtime.VNumber _) | Some Runtime.VOther | None => True
  end.

(** The [tags] of the object are an array that has [tag] as an element, or
    a string in which [tag] occurs. *)
Definition listsTag (tag : string) (item : Runtime.Frontmatter) : Prop :=
  match Runtime.tags item with
  | Some (Runtime.VArray elements) => In (Runtime.EString tag) elements
  | Some (Runtime.VString s) => exists pre post, s = pre ++ tag ++ post
  | Some (Runtime.VNumber _) | Some Runtime.VOther | None => False
  end.

(** [b] is [a], or [a] without the slash it ends with, or [a] with a
    slash more at its end. *)
Definition upToTrailingSlash (a b : string) : Prop :=
  b = a \/ a = b ++ "/" \/ b = a ++ "/".

(** [s] has no [$] in it: as the replacement of [replace] it stands for
    itself. *)
Fixpoint plain (s : string) : bool :=
  match s with
  | EmptyString => true
  | String c r => negb (Ascii.eqb c "$") && plain r
  end.

(** [s] is two lower-case letters. *)
Definition twoLetters (s : string) : Prop :=
  exists a b,
    s = String a (String b EmptyString) /\
    LangSelect.isLower a = true /\ LangSelect.isLower b = true.

(** The number of times [tag] is written in the frontmatter of the
    documents. *)
Definition occurrences (tag : string) (docs : list Markdown.MDXFrontmatter)
  : nat :=
  count_occ string_dec (flat_map Markdown.tags docs) tag.

(** The sum of the counts a map holds. *)
Definition total (m : JSMap.t Z) : Z := fold_right Z.add 0 (JSMap.values m).

(** [i] is the index of the first element of [l] that satisfies [p], and
    [x] is that element. *)
Definition firstAt {A : Type} (p : A -> bool) (l : list A) (i : nat) (x : A)
  : Prop :=
  nth_error l i = Some x /\ p x = true /\
  forall j y, (j < i)%nat -> nth_error l j = Some y -> p y = false.

End Spec.

(** ** Collections to evaluate the loaders on *)

Module Fixture.

(** A parser for files that hold nothing but a slug: the title and the one
    tag are the slug, and the timestamp is its length. *)
Definition compileMDX (file : string) : Markdown.Compiled unit :=
  {| Markdown.content := tt;
     Markdown.frontmatter :=
       {| Markdown.title := file;
          Markdown.slug := file;
          Markdown.description := EmptyString;
          Markdown.author := EmptyString;
          Markdown.published := Z.of_nat (String.length file);
          Markdown.tags := [file];
          Markdown.githubUrl := None |} |}.

(** Three documents with the timestamps 1 < 2 < 3. *)
Definition A : string := "a".
Definition B : string := "bb".
Definition C : string := "ccc".

(** The frontmatter block of the internationalization post of this blog:
    it has neither [author] nor [tags]. *)
Definition i18nPost : Runtime.Frontmatter :=
  {| Runtime.title :=
       Some (Runtime.VString "Next.js 15 Internationalization Simplified");
     Runtime.slug := Some (Runtime.VString "next-i18n");
     Runtime.description :=
       Some (Runtime.VString "A guide to internationalization in Next.js 15");
     Runtime.author := None;
     Runtime.published := Some (Runtime.VNumber 1739098444364);
     Runtime.tags := None;
     Runtime.githubUrl := None |}.

End Fixture.

(** * Properties *)

(** ** Strings and [split] *)

Lemma append_assoc (a b c : string) : (a ++ b) ++ c = a ++ (b ++ c).
Proof. induction a as [|x a IH]; simpl; [reflexivity | now rewrite IH]. Qed.

Lemma prefix_beginsWith (p s : string) :
  String.prefix p s = true <-> Spec.beginsWith s p.
Proof.
  unfold Spec.beginsWith. revert s.
  induction p as [|c p IH]; intros s; simpl.
  - split; [intros _; exists s; reflexivity | intros _; now destruct s].
  - destruct s as [|d s]; simpl.
    + split; [discriminate | intros [rest H]; discriminate].
    + destruct (ascii_dec c d) as [->|Hne].
      * rewrite IH. split; intros [rest H]; exists rest.
        -- now rewrite H.
        -- now injection H.
      * split; [discriminate |].
        intros [rest H]. injection H as H1 _. congruence.
Qed.

Lemma split_nonempty (sep : ascii) (s : string) : JS.split sep s <> [].
Proof.
  destruct s as [|c r]; simpl; [discriminate |].
  destruct (Ascii.eqb c sep); [discriminate |].
  destruct (JS.split sep r); discriminate.
Qed.

(** The first piece of a split is the whole string or is followed by the
    separator. *)
Lemma split_head (sep : ascii) (s h : string) (t : list string) :
  JS.split sep s = h :: t ->
  s = h \/ exists more, s = h ++ String sep more.
Proof.
  revert h t. induction s as [|c r IH]; intros h t; simpl.
  - intros H. injection H as <- _. now left.
  - destruct (Ascii.eqb_spec c sep) as [->|Hne].
    + intros H. injection H as <- _. right. now exists r.
    + destruct (JS.split sep r) as [|h' t'] eqn:E.
      * now destruct (split_nonempty sep r).
      * intros H. injection H as <- _.
        destruct (IH h' t' eq_refl) as [->|[more ->]].
        -- now left.
        -- right. now exists more.
Qed.

(** The first piece is empty only for the empty string and for a string
    that begins with the separator. *)
Lemma split_head_empty (sep : ascii) (s : string) (t : list string) :
  JS.split sep s = EmptyString :: t ->
  s = EmptyString \/ exists r, s = String sep r.
Proof.
  destruct s as [|c r]; simpl; [now left |].
  destruct (Ascii.eqb_spec c sep) as [->|Hne].
  - intros _. right. now exists r.
  - destruct (JS.split sep r); discriminate.
Qed.

(** ** The locale resolver *)

Lemma pathnameHasLocale_spec (P : string) :
  Locale.pathnameHasLocale P = true <->
  exists L, In L Locale.locales /\
            (Spec.beginsWith P ("/" ++ L ++ "/") \/ P = "/" ++ L).
Proof.
  unfold Locale.pathnameHasLocale, JS.some, JS.startsWith.
  rewrite existsb_exists.
  split; intros [L [HL H]]; exists L; split; trivial.
  - apply orb_true_iff in H as [H|H].
    + left. now apply prefix_beginsWith.
    + right. now apply String.eqb_eq.
  - apply orb_true_iff. destruct H as [H|H].
    + left. now apply prefix_beginsWith.
    + right. now apply String.eqb_eq.
Qed.

Lemma includes_In (arr : list string) (s : string) :
  JS.includes arr (Some s) = true <-> In s arr.
Proof.
  simpl. rewrite existsb_exists. split.
  - intros [x [Hx H]]. apply String.eqb_eq in H. now subst.
  - intros H. exists s. split; trivial. apply String.eqb_refl.
Qed.

(** What [getLocale] returns is an enumerated locale. *)
Lemma getLocale_In (P : string) : In (Locale.getLocale P) Locale.locales.
Proof.
  unfold Locale.getLocale.
  destruct (hd_error _) as [l|] eqn:E.
  - destruct (JS.includes Locale.locales (Some l)) eqn:I.
    + now apply includes_In.
    + simpl. now left.
  - simpl. now left.
Qed.

(** A pathname that begins with one slash only, and has no locale prefix,
    resolves to the default locale. *)
Lemma getLocale_single_slash (rest : string) :
  ~ Spec.beginsWith rest "/" ->
  Locale.pathnameHasLocale ("/" ++ rest) = false ->
  Locale.getLocale ("/" ++ rest) = "en".
Proof.
  intros Hslash Hno.
  unfold Locale.getLocale.
  change (JS.split "/" ("/" ++ rest)) with (EmptyString :: JS.split "/" rest).
  cbn [filter JS.truthy].
  destruct (JS.split "/" rest) as [|h t] eqn:E.
  - now destruct (split_nonempty "/" rest).
  - destruct h as [|c h].
    + destruct (split_head_empty _ _ _ E) as [->|[r ->]].
      * simpl in E. injection E as <-. reflexivity.
      * destruct Hslash. now exists r.
    + cbn [filter JS.truthy hd_error].
      destruct (JS.includes Locale.locales (Some (String c h))) eqn:I;
        [| reflexivity].
      apply includes_In in I.
      assert (Locale.pathnameHasLocale ("/" ++ rest) = true) as Hyes;
        [| congruence].
      apply pathnameHasLocale_spec. exists (String c h). split; trivial.
      apply split_head in E as [->|[more ->]].
      * now right.
      * left. exists more. simpl. f_equal. f_equal.
        now rewrite append_assoc.
Qed.

(** C8.  [pathnameHasLocale] answers true exactly for the pathnames that
    begin with [/L/] or are [/L] for one of the three locales [en], [fr],
    [ja]. *)
Theorem C8_pathnameHasLocale_iff (P : string) :
  Locale.pathnameHasLocale P = true <->
  exists L, (L = "en" \/ L = "fr" \/ L = "ja") /\
            (Spec.beginsWith P ("/" ++ L ++ "/") \/ P = "/" ++ L).
Proof.
  rewrite pathnameHasLocale_spec.
  split; intros [L [HL H]]; exists L; split; trivial.
  - simpl in HL. intuition congruence.
  - simpl. intuition congruence.
Qed.

(** C1, as stated, fails: the pathname [//fr] has no locale prefix, and the
    pathname the middleware redirects to is [/fr//fr], not [/en//fr]. *)
Lemma C1_counterexample :
  ~ (forall href P, Locale.pathnameHasLocale P = false ->
                    snd (Middleware.middleware href P) = "/en" ++ P).
Proof.
  intros H. specialize (H (fun pathname => pathname) "//fr" eq_refl).
  vm_compute in H. discriminate H.
Qed.

(** C1, amended.  For a pathname without locale prefix the middleware sets
    the pathname of the request to the pathname prefixed with [/] and the
    locale [getLocale] resolves, and returns a redirect to the URL of the
    request so changed, with the location the framework writes for it; the
    locale is an enumerated one, and is the default [en] whenever the
    pathname begins with one slash only.  A pathname with a locale prefix
    is left as it is, and nothing is returned. *)
Theorem C1_middleware_rewrite (href : string -> string) (P : string) :
  (Locale.pathnameHasLocale P = false ->
   exists L,
     L = Locale.getLocale P /\ In L Locale.locales /\
     Middleware.middleware href P
     = (Some (Middleware.Redirect (href ("/" ++ L ++ P))), "/" ++ L ++ P) /\
     forall rest, P = "/" ++ rest -> ~ Spec.beginsWith rest "/" ->
                  L = "en" /\ "/" ++ L ++ P = "/en" ++ P) /\
  (Locale.pathnameHasLocale P = true ->
   Middleware.middleware href P = (None, P)).
Proof.
  split; intros H.
  - exists (Locale.getLocale P). repeat split.
    + apply getLocale_In.
    + unfold Middleware.middleware. now rewrite H.
    + subst P. now apply getLocale_single_slash.
    + subst P. now rewrite (getLocale_single_slash rest).
  - unfold Middleware.middleware. now rewrite H.
Qed.

Lemma C1_middleware_rewrite_witness :
  snd (Middleware.middleware (fun pathname => pathname) "/about")
  = "/en/about" /\
  Middleware.middleware (fun pathname => pathname) "/en/about"
  = (None, "/en/about").
Proof.
  split.
  - destruct (C1_middleware_rewrite (fun pathname => pathname) "/about")
      as [Hno _].
    destruct (Hno eq_refl) as [L [_ [_ [Hmw Hen]]]].
    rewrite Hmw. cbn [snd].
    apply (Hen "about" eq_refl).
    intros [r Hr]. discriminate Hr.
  - destruct (C1_middleware_rewrite (fun pathname => pathname) "/en/about")
      as [_ Hyes].
    exact (Hyes eq_refl).
Defined.

(** ** The dictionary loader *)

Lemma lookup_own (L : string) :
  (exists json, Dictionary.lookup L = Dictionary.Loader json) <->
  L = "en" \/ L = "ja".
Proof.
  unfold Dictionary.lookup, Dictionary.dictionaries.
  cbn [Dictionary.assoc].
  destruct (String.eqb_spec L "en") as [->|Hen].
  - split; [now left | intros _; now eexists].
  - destruct (String.eqb_spec L "ja") as [->|Hja].
    + split; [now right | intros _; now eexists].
    + split; [| intuition congruence].
      intros [json H].
      destruct (Dictionary.assoc L Dictionary.objectPrototype);
        [discriminate |].
      destruct (String.eqb L "__proto__"); discriminate.
Qed.

Lemma callBuiltin_no_dictionary (b : Dictionary.Builtin) :
  Dictionary.isDictionary (Dictionary.callBuiltin b) = false.
Proof. now destruct b. Qed.

(** C9, as stated, fails in its last part: [toString] is neither [en] nor
    [ja], and [getDictionary] does not fail on it, for the table inherits a
    function of that name, which returns a string. *)
Lemma C9_counterexample :
  ~ (forall L, L <> "en" -> L <> "ja" ->
               Dictionary.fails (Dictionary.getDictionary L) = true).
Proof.
  intros H.
  assert (Dictionary.fails (Dictionary.getDictionary "toString") = true) as F.
  { apply H; discriminate. }
  vm_compute in F. discriminate F.
Qed.

(** C9, amended.  [fr] is an enumerated locale on which [getDictionary]
    fails; [getDictionary] returns a dictionary exactly on [en] and [ja];
    and it fails on every other input that is not the name of a method of
    [Object.prototype]. *)
Theorem C9_getDictionary :
  (In "fr" Locale.locales /\
   Dictionary.getDictionary "fr" = Dictionary.RejectedTypeError) /\
  (forall L, Dictionary.isDictionary (Dictionary.getDictionary L) = true <->
             L = "en" \/ L = "ja") /\
  (forall L, L <> "en" -> L <> "ja" ->
             Dictionary.assoc L Dictionary.objectPrototype = None ->
             Dictionary.getDictionary L = Dictionary.RejectedTypeError).
Proof.
  split; [split; [simpl; tauto | reflexivity] |].
  split.
  - intros L. rewrite <- lookup_own. unfold Dictionary.getDictionary.
    destruct (Dictionary.lookup L) as [json|b| |]; simpl.
    + split; [intros _; now eexists | reflexivity].
    + rewrite callBuiltin_no_dictionary.
      split; [discriminate | intros [json H]; discriminate].
    + split; [discriminate | intros [json H]; discriminate].
    + split; [discriminate | intros [json H]; discriminate].
  - intros L Hen Hja Hproto.
    unfold Dictionary.getDictionary, Dictionary.lookup,
      Dictionary.dictionaries.
    cbn [Dictionary.assoc].
    apply String.eqb_neq in Hen, Hja. rewrite Hen, Hja, Hproto.
    now destruct (String.eqb L "__proto__").
Qed.

Lemma C9_getDictionary_witness :
  Dictionary.getDictionary "de" = Dictionary.RejectedTypeError.
Proof.
  destruct C9_getDictionary as [_ [_ H]].
  apply (H "de"); [discriminate | discriminate | reflexivity].
Defined.

(** ** The reading time *)

Lemma trailingGap_cons (c : ascii) (r : string) :
  Spec.trailingGap (String c r) = Spec.gapAfter (JS.isSpace c) r.
Proof. now destruct r. Qed.

(** The number of pieces [split(/\s+/)] yields, read from inside the text:
    after a character of a word, and after white space. *)
Lemma splitSpacesFrom_length (s : string) :
  (forall p, List.length (JS.splitSpacesFrom p false s)
             = (1 + Spec.wordCountFrom true s
                + Nat.b2n (Spec.gapAfter false s))%nat) /\
  (forall p, List.length (JS.splitSpacesFrom p true s)
             = (Spec.wordCountFrom false s
                + Nat.b2n (Spec.gapAfter true s))%nat).
Proof.
  induction s as [|c r [IHword IHgap]]; [split; reflexivity |].
  split; intros p; cbn [JS.splitSpacesFrom Spec.wordCountFrom Spec.gapAfter];
    rewrite trailingGap_cons; destruct (JS.isSpace c) eqn:Hc.
  - cbn [List.length]. rewrite IHgap. lia.
  - rewrite IHword. lia.
  - rewrite IHgap. lia.
  - rewrite IHword. lia.
Qed.

(** The pieces are the words, and one empty piece more for white space at
    the beginning (or an empty text) and for white space at the end. *)
Lemma splitSpaces_length (text : string) :
  List.length (JS.splitSpaces text)
  = (Spec.wordCount text + Nat.b2n (Spec.leadingGap text)
     + Nat.b2n (Spec.trailingGap text))%nat.
Proof.
  unfold JS.splitSpaces, Spec.wordCount.
  destruct text as [|c r]; [reflexivity |].
  destruct (splitSpacesFrom_length r) as [Hword Hgap].
  cbn [JS.splitSpacesFrom Spec.wordCountFrom Spec.leadingGap].
  rewrite trailingGap_cons. destruct (JS.isSpace c) eqn:Hc.
  - cbn [List.length]. rewrite Hgap. simpl Nat.b2n. lia.
  - rewrite Hword. simpl Nat.b2n. lia.
Qed.

Lemma ceilDiv_isCeilingOf (n d : Z) :
  0 < d -> Spec.isCeilingOf (JS.ceilDiv n d) n d.
Proof.
  intros Hd. unfold Spec.isCeilingOf, JS.ceilDiv.
  pose proof (Z.div_mod (n + d - 1) d ltac:(lia)) as E.
  pose proof (Z.mod_pos_bound (n + d - 1) d Hd) as B.
  nia.
Qed.

Lemma estimateReadingTime_pieces (text : string) :
  Markdown.estimateReadingTime text
  = JS.ceilDiv (Z.of_nat (Spec.wordCount text)
                + Z.b2z (Spec.leadingGap text)
                + Z.b2z (Spec.trailingGap text)) 200.
Proof.
  unfold Markdown.estimateReadingTime, Markdown.wordsPerMinute.
  rewrite splitSpaces_length. f_equal.
  destruct (Spec.leadingGap text), (Spec.trailingGap text); simpl; lia.
Qed.

Lemma splitSpacesFrom_tokens (s p : string) (inRun : bool) :
  List.length (JS.splitSpacesFrom p inRun s) = S (Spec.spaceRunsFrom inRun s).
Proof.
  revert p inRun. induction s as [|c r IH]; intros p inRun; [reflexivity |].
  cbn [JS.splitSpacesFrom Spec.spaceRunsFrom].
  destruct (JS.isSpace c), inRun; cbn [List.length]; now rewrite IH.
Qed.

(** C5.  The estimate is the ceiling of the number of tokens of the text by
    200, the tokens being what white space delimits: what lies before the
    first run of white space, between two runs, and after the last.  They
    are the words of the text, and an empty token more where the text begins
    with white space (or is empty) and where it ends with white space.  For
    400 tokens the estimate is 2, for one token it is 1. *)
Theorem C5_estimateReadingTime (text : string) :
  let tokens := Spec.tokenCount text in
  List.length (JS.splitSpaces text) = tokens /\
  tokens = (Spec.wordCount text + Nat.b2n (Spec.leadingGap text)
            + Nat.b2n (Spec.trailingGap text))%nat /\
  Spec.isCeilingOf (Markdown.estimateReadingTime text) (Z.of_nat tokens) 200 /\
  (tokens = 400%nat -> Markdown.estimateReadingTime text = 2) /\
  (tokens = 1%nat -> Markdown.estimateReadingTime text = 1).
Proof.
  cbv zeta.
  assert (List.length (JS.splitSpaces text) = Spec.tokenCount text) as Htok
    by apply splitSpacesFrom_tokens.
  assert (Markdown.estimateReadingTime text
          = JS.ceilDiv (Z.of_nat (Spec.tokenCount text)) 200) as Hest.
  { unfold Markdown.estimateReadingTime, Markdown.wordsPerMinute.
    now rewrite Htok. }
  split; [exact Htok |]. split; [rewrite <- Htok; apply splitSpaces_length |].
  rewrite Hest. split; [now apply ceilDiv_isCeilingOf |].
  split; intros ->; reflexivity.
Qed.

Lemma C5_estimateReadingTime_witness :
  Markdown.estimateReadingTime (Spec.wordsOf "word" 400) = 2 /\
  Markdown.estimateReadingTime "word" = 1.
Proof.
  split.
  - destruct (C5_estimateReadingTime (Spec.wordsOf "word" 400))
      as [_ [_ [_ [H400 _]]]].
    apply H400. vm_compute. reflexivity.
  - destruct (C5_estimateReadingTime "word") as [_ [_ [_ [_ H1]]]].
    apply H1. reflexivity.
Defined.

Lemma pieces_positive (text : string) :
  1 <= Z.of_nat (Spec.wordCount text)
       + Z.b2z (Spec.leadingGap text) + Z.b2z (Spec.trailingGap text).
Proof.
  assert (0 <= Z.b2z (Spec.trailingGap text)) as Ht
    by (destruct (Spec.trailingGap text); simpl; lia).
  assert (1 <= Z.of_nat (Spec.wordCount text)
               + Z.b2z (Spec.leadingGap text)); [| lia].
  destruct text as [|c r]; [simpl; lia |].
  unfold Spec.wordCount. cbn [Spec.wordCountFrom Spec.leadingGap].
  destruct (JS.isSpace c); simpl Z.b2z; lia.
Qed.

(** C10.  The estimate is at least 1 for every text, the empty one
    included, on which it is 1. *)
Theorem C10_estimateReadingTime_positive :
  (forall text, 1 <= Markdown.estimateReadingTime text) /\
  Markdown.estimateReadingTime "" = 1 /\
  List.length (JS.splitSpaces "") = 1%nat.
Proof.
  split; [| split; reflexivity].
  intros text. rewrite estimateReadingTime_pieces.
  pose proof (pieces_positive text) as Hp.
  pose proof (ceilDiv_isCeilingOf
                (Z.of_nat (Spec.wordCount text)
                 + Z.b2z (Spec.leadingGap text)
                 + Z.b2z (Spec.trailingGap text)) 200 ltac:(lia)) as [_ H].
  lia.
Qed.

(** ** [sort] *)

Section SortAny.

Context {A : Type} (cmp : A -> A -> Z).

Lemma insert_perm (x : A) (l : list A) :
  Permutation (JS.insert cmp x l) (x :: l).
Proof.
  induction l as [|y r IH]; simpl; [reflexivity |].
  destruct (cmp x y <=? 0); [reflexivity |].
  rewrite IH. apply perm_swap.
Qed.

Lemma sort_perm (l : list A) : Permutation (JS.sort cmp l) l.
Proof.
  induction l as [|x r IH]; simpl; [reflexivity |].
  rewrite insert_perm. now constructor.
Qed.

Lemma sort_map {B : Type} (cmp' : B -> B -> Z) (f : A -> B) (l : list A) :
  (forall x y, cmp' (f x) (f y) = cmp x y) ->
  JS.sort cmp' (map f l) = map f (JS.sort cmp l).
Proof.
  intros Hf. induction l as [|x r IH]; simpl; [reflexivity |].
  fold (JS.sort cmp' (map f r)). fold (JS.sort cmp r). rewrite IH.
  generalize (JS.sort cmp r) as s.
  induction s as [|y s IHs]; simpl; [reflexivity |].
  rewrite Hf. destruct (cmp x y <=? 0); simpl; [reflexivity |].
  now rewrite IHs.
Qed.

End SortAny.

(** A comparator that is the difference of a key, as the two comparators
    of the loaders are. *)
Section SortByKey.

Context {A : Type} (key : A -> Z) (cmp : A -> A -> Z).
Hypothesis cmp_key : forall x y, cmp x y = key x - key y.

Lemma insert_sorted (x : A) (l : list A) :
  Spec.ascendingBy key l -> Spec.ascendingBy key (JS.insert cmp x l).
Proof.
  unfold Spec.ascendingBy.
  induction l as [|y r IH]; intros Hs; simpl.
  - constructor; constructor.
  - rewrite cmp_key. destruct (Z.leb_spec (key x - key y) 0) as [Hle|Hgt].
    + constructor; trivial.
      apply StronglySorted_inv in Hs as [_ Hall].
      constructor; [lia |].
      eapply Forall_impl; [| exact Hall]. simpl. intros; lia.
    + apply StronglySorted_inv in Hs as [Hr Hall].
      constructor; [now apply IH |].
      eapply Permutation_Forall; [symmetry; apply insert_perm |].
      constructor; [lia | trivial].
Qed.

Lemma sort_sorted (l : list A) : Spec.ascendingBy key (JS.sort cmp l).
Proof.
  induction l as [|x r IH]; simpl.
  - constructor.
  - now apply insert_sorted.
Qed.

(** Inserting into a sorted list and then filtering is filtering and then
    inserting. *)
Lemma filter_insert (p : A -> bool) (x : A) (l : list A) :
  Spec.ascendingBy key l ->
  filter p (JS.insert cmp x l)
  = if p x then JS.insert cmp x (filter p l) else filter p l.
Proof.
  unfold Spec.ascendingBy.
  induction l as [|y r IH]; intros Hs; simpl.
  - now destruct (p x).
  - apply StronglySorted_inv in Hs as [Hr Hall].
    rewrite cmp_key. destruct (Z.leb_spec (key x - key y) 0) as [Hle|Hgt].
    + simpl. destruct (p x) eqn:Px; [| reflexivity].
      destruct (p y) eqn:Py.
      * simpl. rewrite cmp_key.
        destruct (Z.leb_spec (key x - key y) 0); [reflexivity | lia].
      * assert (Forall (fun z => key x <= key z) (filter p r)) as Hx.
        { apply Forall_forall. intros z Hz. apply filter_In in Hz as [Hz _].
          rewrite Forall_forall in Hall. specialize (Hall z Hz). lia. }
        destruct (filter p r) as [|z r']; simpl; [reflexivity |].
        rewrite cmp_key. apply Forall_inv in Hx.
        destruct (Z.leb_spec (key x - key z) 0); [reflexivity | lia].
    + simpl. rewrite (IH Hr). destruct (p y) eqn:Py; destruct (p x) eqn:Px;
        simpl; trivial.
      rewrite cmp_key.
      destruct (Z.leb_spec (key x - key y) 0); [lia | reflexivity].
Qed.

(** Sorting commutes with filtering: the sort is stable. *)
Lemma sort_filter (p : A -> bool) (l : list A) :
  JS.sort cmp (filter p l) = filter p (JS.sort cmp l).
Proof.
  induction l as [|x r IH]; simpl; [reflexivity |].
  fold (JS.sort cmp r).
  rewrite (filter_insert p x _ (sort_sorted r)).
  destruct (p x); simpl; trivial.
  fold (JS.sort cmp (filter p r)). now rewrite IH.
Qed.

(** A list in ascending order that is a permutation of a list in strictly
    ascending order is that list. *)
Lemma sorted_unique (l l' : list A) :
  Spec.ascendingBy key l -> Permutation l l' ->
  StronglySorted (fun a b => key a < key b) l' -> l = l'.
Proof.
  unfold Spec.ascendingBy.
  revert l. induction l' as [|a t' IH]; intros l Hs Hp Hs'.
  - now apply Permutation_sym, Permutation_nil in Hp.
  - destruct l as [|b t].
    + now apply Permutation_nil in Hp.
    + apply StronglySorted_inv in Hs as [Ht Hb].
      apply StronglySorted_inv in Hs' as [Ht' Ha].
      rewrite Forall_forall in Hb, Ha.
      assert (b = a) as ->.
      { assert (In b (a :: t')) as Hin
          by (eapply Permutation_in; [exact Hp | now left]).
        assert (In a (b :: t)) as Hin'
          by (eapply Permutation_in; [symmetry; exact Hp | now left]).
        destruct Hin as [<-|Hin]; trivial.
        destruct Hin' as [->|Hin']; trivial.
        specialize (Ha b Hin). specialize (Hb a Hin'). lia. }
      f_equal. apply IH; trivial.
      now apply Permutation_cons_inv in Hp.
Qed.

End SortByKey.

(** ** The content loader *)

Lemma byPublishedDesc_key (a b : Markdown.MDXFrontmatter) :
  Markdown.byPublishedDesc a b
  = (fun f => - Markdown.published f) a - (fun f => - Markdown.published f) b.
Proof. unfold Markdown.byPublishedDesc. lia. Qed.

Lemma byPublishedAsc_key {Content : Type} (a b : Markdown.Document Content) :
  Markdown.byPublishedAsc a b
  = (fun d => Markdown.published (Markdown.meta d)) a
    - (fun d => Markdown.published (Markdown.meta d)) b.
Proof. reflexivity. Qed.

(** C6.  Sorting by descending timestamp after filtering by a tag gives the
    sequence that filtering after sorting gives; the filter keeps exactly
    the documents whose tags contain the tag; and [getAllMetaData], called
    with a tag, returns that sequence. *)
Theorem C6_sort_filter_commute :
  (forall docs tag,
     JS.sort Markdown.byPublishedDesc (filter (Markdown.hasTag tag) docs)
     = filter (Markdown.hasTag tag) (JS.sort Markdown.byPublishedDesc docs)) /\
  (forall docs tag d,
     In d (filter (Markdown.hasTag tag) docs) <->
     In d docs /\ In tag (Markdown.tags d)) /\
  (forall Content (compileMDX : string -> Markdown.Compiled Content)
          files c tag,
     Markdown.getAllMetaData compileMDX files (String c tag)
     = JS.sort Markdown.byPublishedDesc
         (filter (Markdown.hasTag (String c tag))
            (map (fun file => Markdown.frontmatter (compileMDX file)) files))).
Proof.
  split; [| split].
  - intros docs tag.
    apply (sort_filter _ _ byPublishedDesc_key).
  - intros docs tag d. rewrite filter_In.
    unfold Markdown.hasTag. now rewrite includes_In.
  - intros Content compileMDX files c tag.
    rewrite (sort_filter _ _ byPublishedDesc_key). reflexivity.
Qed.

Lemma findIndex_range {A : Type} (p : A -> bool) (l : list A) :
  -1 <= JS.findIndex p l < Z.of_nat (List.length l).
Proof.
  induction l as [|x r IH]; simpl List.length; simpl JS.findIndex; [lia |].
  destruct (p x); [lia |].
  destruct (Z.eqb_spec (JS.findIndex p r) (-1)); lia.
Qed.

Lemma findIndex_none {A : Type} (p : A -> bool) (l : list A) :
  (forall x, In x l -> p x = false) -> JS.findIndex p l = -1.
Proof.
  induction l as [|x r IH]; intros H; simpl; [reflexivity |].
  rewrite (H x (or_introl eq_refl)).
  rewrite IH; [reflexivity |]. intros y Hy. apply H. now right.
Qed.

Lemma findIndex_first {A : Type} (p : A -> bool) (l : list A) (i : nat)
  (x : A) :
  Spec.firstAt p l i x -> JS.findIndex p l = Z.of_nat i.
Proof.
  unfold Spec.firstAt. revert i.
  induction l as [|y r IH]; intros i [Hn [Hp Hlt]].
  - destruct i; discriminate.
  - destruct i as [|i]; simpl in *.
    + injection Hn as ->. now rewrite Hp.
    + rewrite (Hlt 0%nat y); [| lia | reflexivity].
      rewrite (IH i).
      * destruct (Z.eqb_spec (Z.of_nat i) (-1)); lia.
      * repeat split; trivial.
        intros j z Hj Hz. apply (Hlt (S j) z); [lia | exact Hz].
Qed.

(** An element that satisfies [p] is preceded by a first one. *)
Lemma firstAt_exists {A : Type} (p : A -> bool) (l : list A) (x : A) :
  In x l -> p x = true -> exists i y, Spec.firstAt p l i y.
Proof.
  unfold Spec.firstAt.
  induction l as [|z r IH]; intros Hin Hp; [destruct Hin |].
  destruct (p z) eqn:Pz.
  - exists 0%nat, z. repeat split; trivial. intros j y Hj. lia.
  - destruct Hin as [->|Hin]; [congruence |].
    destruct (IH Hin Hp) as [i [y [Hn [Hy Hlt]]]].
    exists (S i), y. repeat split; trivial.
    intros [|j] w Hj Hw; simpl in Hw.
    + now injection Hw as <-.
    + apply (Hlt j w); [lia | exact Hw].
Qed.

Lemma get_of_nat {A : Type} (l : list A) (i : nat) :
  JS.get l (Z.of_nat i) = nth_error l i.
Proof.
  unfold JS.get. destruct (Z.ltb_spec (Z.of_nat i) 0); [lia |].
  now rewrite Nat2Z.id.
Qed.

Lemma get_succ {A : Type} (l : list A) (i : nat) :
  JS.get l (Z.of_nat i + 1) = nth_error l (S i).
Proof.
  replace (Z.of_nat i + 1) with (Z.of_nat (S i)) by lia. apply get_of_nat.
Qed.

Lemma get_pred {A : Type} (l : list A) (i : nat) :
  JS.get l (Z.of_nat i - 1)
  = match i with O => None | S j => nth_error l j end.
Proof.
  destruct i as [|j]; [reflexivity |].
  replace (Z.of_nat (S j) - 1) with (Z.of_nat j) by lia. apply get_of_nat.
Qed.

Section ReadMDX.

Context {Content : Type} (compileMDX : string -> Markdown.Compiled Content).

Lemma readMDX_unfold (files : list string) (slug_ : string) :
  Markdown.readMDX compileMDX files slug_
  = let sorted := Spec.sortedDocs compileMDX files in
    let index := JS.findIndex (Spec.hasSlug slug_) sorted in
    if index =? -1 then None
    else Some {| Markdown.previous :=
                   option_map Markdown.meta (JS.get sorted (index + 1));
                 Markdown.current := JS.get sorted index;
                 Markdown.next :=
                   option_map Markdown.meta (JS.get sorted (index - 1)) |}.
Proof.
  unfold Markdown.readMDX, Arr.run, Arr.bind, Arr.sort, Arr.at_, Arr.ret.
  cbv zeta.
  change (JS.sort Markdown.byPublishedAsc
            (map (Markdown.load compileMDX) files))
    with (Spec.sortedDocs compileMDX files).
  change (fun item : Markdown.Document Content =>
            String.eqb (Markdown.slug (Markdown.meta item)) slug_)
    with (@Spec.hasSlug Content slug_).
  now destruct (JS.findIndex (Spec.hasSlug slug_)
                  (Spec.sortedDocs compileMDX files) =? -1).
Qed.

Lemma sortedDocs_perm (files : list string) :
  Permutation (Spec.sortedDocs compileMDX files)
    (map (Markdown.load compileMDX) files).
Proof. apply sort_perm. Qed.

Lemma sortedDocs_ascending (files : list string) :
  Spec.ascendingBy (fun d => Markdown.published (Markdown.meta d))
    (Spec.sortedDocs compileMDX files).
Proof. apply (sort_sorted _ _ byPublishedAsc_key). Qed.

Lemma readMDX_absent (files : list string) (slug_ : string) :
  (forall d, In d (map (Markdown.load compileMDX) files) ->
             Markdown.slug (Markdown.meta d) <> slug_) ->
  Markdown.readMDX compileMDX files slug_ = None.
Proof.
  intros H. rewrite readMDX_unfold. cbv zeta.
  rewrite findIndex_none; [reflexivity |].
  intros d Hd. apply String.eqb_neq, H.
  eapply Permutation_in; [apply sortedDocs_perm | exact Hd].
Qed.

Lemma readMDX_present (files : list string) (slug_ : string) (i : nat)
  (d : Markdown.Document Content) :
  Spec.firstAt (Spec.hasSlug slug_) (Spec.sortedDocs compileMDX files) i d ->
  Markdown.readMDX compileMDX files slug_
  = Some {| Markdown.previous :=
              option_map Markdown.meta
                (nth_error (Spec.sortedDocs compileMDX files) (S i));
            Markdown.current := Some d;
            Markdown.next :=
              match i with
              | O => None
              | S j =>
                  option_map Markdown.meta
                    (nth_error (Spec.sortedDocs compileMDX files) j)
              end |}.
Proof.
  intros H. rewrite readMDX_unfold. cbv zeta.
  rewrite (findIndex_first _ _ _ _ H).
  destruct (Z.eqb_spec (Z.of_nat i) (-1)); [lia |].
  rewrite get_succ, get_pred, get_of_nat.
  destruct H as [-> _]. now destruct i.
Qed.

End ReadMDX.

(** C2.  [readMDX] sorts the collection in ascending order of the
    timestamps; with [i] the index of the first document of the sorted
    collection whose slug is the one asked for, it returns as [current] the
    document at [i], as [previous] the frontmatter of the document at
    [i + 1], nothing if there is none, and as [next] the frontmatter of the
    document at [i - 1], nothing if there is none; and it returns nothing
    when no document has the slug. *)
Theorem C2_readMDX_siblings {Content : Type}
  (compileMDX : string -> Markdown.Compiled Content)
  (files : list string) (slug_ : string) :
  let docs := map (Markdown.load compileMDX) files in
  let sorted := JS.sort Markdown.byPublishedAsc docs in
  Permutation sorted docs /\
  Spec.ascendingBy (fun d => Markdown.published (Markdown.meta d)) sorted /\
  (forall i d,
     Spec.firstAt
       (fun item => String.eqb (Markdown.slug (Markdown.meta item)) slug_)
       sorted i d ->
     Markdown.readMDX compileMDX files slug_
     = Some {| Markdown.previous :=
                 option_map Markdown.meta (nth_error sorted (S i));
               Markdown.current := Some d;
               Markdown.next :=
                 match i with
                 | O => None
                 | S j => option_map Markdown.meta (nth_error sorted j)
                 end |}) /\
  ((forall d, In d docs -> Markdown.slug (Markdown.meta d) <> slug_) ->
   Markdown.readMDX compileMDX files slug_ = None).
Proof.
  cbv zeta. repeat split.
  - apply sortedDocs_perm.
  - apply sortedDocs_ascending.
  - intros i d H. now apply readMDX_present.
  - apply readMDX_absent.
Qed.

Lemma NoDup_map_inj {A B : Type} (f : A -> B) (l : list A) (x y : A) :
  NoDup (map f l) -> In x l -> In y l -> f x = f y -> x = y.
Proof.
  induction l as [|z r IH]; intros Hnd Hx Hy Hf; [destruct Hx |].
  simpl in Hnd. apply NoDup_cons_iff in Hnd as [Hz Hnd].
  destruct Hx as [->|Hx], Hy as [->|Hy]; trivial.
  - destruct Hz. rewrite Hf. now apply in_map.
  - destruct Hz. rewrite <- Hf. now apply in_map.
  - now apply IH.
Qed.

(** C7.  Loading by the slug of a document of the collection returns a
    result, and its current document has that slug; it is that document
    when the slugs of the collection are unique. *)
Theorem C7_readMDX_roundtrip {Content : Type}
  (compileMDX : string -> Markdown.Compiled Content)
  (files : list string) (D : Markdown.Document Content) :
  In D (map (Markdown.load compileMDX) files) ->
  exists r c,
    Markdown.readMDX compileMDX files (Markdown.slug (Markdown.meta D))
    = Some r /\
    Markdown.current r = Some c /\
    Markdown.slug (Markdown.meta c) = Markdown.slug (Markdown.meta D) /\
    (NoDup (map (fun d => Markdown.slug (Markdown.meta d))
              (map (Markdown.load compileMDX) files)) ->
     c = D).
Proof.
  intros HD.
  set (sorted := JS.sort Markdown.byPublishedAsc
                   (map (Markdown.load compileMDX) files)).
  assert (In D sorted) as HDs.
  { eapply Permutation_in; [symmetry; apply sortedDocs_perm | exact HD]. }
  destruct (firstAt_exists
              (fun item =>
                 String.eqb (Markdown.slug (Markdown.meta item))
                   (Markdown.slug (Markdown.meta D)))
              sorted D HDs (String.eqb_refl _)) as [i [c Hc]].
  eexists. exists c.
  split; [apply (readMDX_present compileMDX files _ i c); exact Hc |].
  destruct Hc as [Hn [Hp _]]. apply String.eqb_eq in Hp.
  repeat split; trivial.
  intros Hnd.
  apply (NoDup_map_inj (fun d => Markdown.slug (Markdown.meta d))
           (map (Markdown.load compileMDX) files)); trivial.
  eapply Permutation_in; [apply sortedDocs_perm |].
  eapply nth_error_In. exact Hn.
Qed.

Lemma C7_readMDX_roundtrip_witness :
  exists r c,
    Markdown.readMDX Fixture.compileMDX [Fixture.C; Fixture.A; Fixture.B]
      (Markdown.slug
         (Markdown.meta (Markdown.load Fixture.compileMDX Fixture.B)))
    = Some r /\
    Markdown.current r = Some c /\
    Markdown.slug (Markdown.meta c) = "bb".
Proof.
  destruct (C7_readMDX_roundtrip Fixture.compileMDX
              [Fixture.C; Fixture.A; Fixture.B]
              (Markdown.load Fixture.compileMDX Fixture.B))
    as [r [c [Hr [Hc [Hs _]]]]].
  - simpl. right. right. now left.
  - exists r, c. repeat split; trivial.
Defined.

Lemma C2_readMDX_siblings_witness :
  Markdown.readMDX Fixture.compileMDX [Fixture.C; Fixture.A; Fixture.B] "bb"
  = Some {| Markdown.previous :=
              Some (Markdown.frontmatter (Fixture.compileMDX Fixture.C));
            Markdown.current :=
              Some (Markdown.load Fixture.compileMDX Fixture.B);
            Markdown.next :=
              Some (Markdown.frontmatter (Fixture.compileMDX Fixture.A)) |} /\
  Markdown.readMDX Fixture.compileMDX [Fixture.C; Fixture.A; Fixture.B] "zz"
  = None.
Proof.
  destruct (C2_readMDX_siblings Fixture.compileMDX
              [Fixture.C; Fixture.A; Fixture.B] "bb")
    as [_ [_ [Hfound _]]].
  destruct (C2_readMDX_siblings Fixture.compileMDX
              [Fixture.C; Fixture.A; Fixture.B] "zz")
    as [_ [_ [_ Hnone]]].
  split.
  - rewrite (Hfound 1%nat (Markdown.load Fixture.compileMDX Fixture.B)).
    + reflexivity.
    + repeat split.
      intros [|j] y Hj Hy; [| lia].
      vm_compute in Hy. injection Hy as <-. reflexivity.
  - apply Hnone. intros d Hd. simpl in Hd.
    destruct Hd as [<-|[<-|[<-|[]]]]; discriminate.
Defined.

(** C3, as stated, fails: in the collection of the three documents with the
    timestamps 1 < 2 < 3, the oldest has a [previous], the middle one, and
    the newest has a [next], the middle one too. *)
Lemma C3_counterexample :
  let files := [Fixture.A; Fixture.B; Fixture.C] in
  let middle := Markdown.frontmatter (Fixture.compileMDX Fixture.B) in
  (exists r, Markdown.readMDX Fixture.compileMDX files "a" = Some r /\
             Markdown.previous r = Some middle /\
             Markdown.previous r <> None) /\
  (exists r, Markdown.readMDX Fixture.compileMDX files "ccc" = Some r /\
             Markdown.next r = Some middle /\
             Markdown.next r <> None).
Proof.
  cbv zeta. split; eexists; (split; [vm_compute; reflexivity |]);
    split; [reflexivity | discriminate | reflexivity | discriminate].
Qed.

(** C3, amended.  In a collection of three documents A, B, C with the
    timestamps A < B < C and slugs that differ, in whatever order the files
    are listed, loading A yields no [next], and B as [previous]; loading C
    yields no [previous], and B as [next]. *)
Theorem C3_three_documents {Content : Type}
  (compileMDX : string -> Markdown.Compiled Content)
  (files : list string) (A B C : Markdown.Document Content) :
  Permutation (map (Markdown.load compileMDX) files) [A; B; C] ->
  Markdown.published (Markdown.meta A) < Markdown.published (Markdown.meta B) ->
  Markdown.published (Markdown.meta B) < Markdown.published (Markdown.meta C) ->
  NoDup [Markdown.slug (Markdown.meta A); Markdown.slug (Markdown.meta B);
         Markdown.slug (Markdown.meta C)] ->
  Markdown.readMDX compileMDX files (Markdown.slug (Markdown.meta A))
  = Some {| Markdown.previous := Some (Markdown.meta B);
            Markdown.current := Some A;
            Markdown.next := None |} /\
  Markdown.readMDX compileMDX files (Markdown.slug (Markdown.meta C))
  = Some {| Markdown.previous := None;
            Markdown.current := Some C;
            Markdown.next := Some (Markdown.meta B) |}.
Proof.
  intros Hp HAB HBC Hnd.
  assert (JS.sort Markdown.byPublishedAsc
            (map (Markdown.load compileMDX) files) = [A; B; C]) as Hs.
  { apply (sorted_unique (fun d => Markdown.published (Markdown.meta d))).
    - apply sortedDocs_ascending.
    - rewrite <- Hp. apply sortedDocs_perm.
    - repeat constructor; lia. }
  apply NoDup_cons_iff in Hnd as [HA Hnd].
  apply NoDup_cons_iff in Hnd as [HB _].
  assert (Markdown.slug (Markdown.meta A) <> Markdown.slug (Markdown.meta C))
    as HAC by (intros E; apply HA; simpl; auto).
  assert (Markdown.slug (Markdown.meta B) <> Markdown.slug (Markdown.meta C))
    as HBC' by (intros E; apply HB; simpl; auto).
  apply String.eqb_neq in HAC, HBC'.
  rewrite !readMDX_unfold. cbv zeta. unfold Spec.sortedDocs, Spec.hasSlug.
  rewrite Hs. simpl JS.findIndex.
  rewrite String.eqb_refl, HAC, HBC', String.eqb_refl.
  split; reflexivity.
Qed.

Lemma C3_three_documents_witness :
  Markdown.readMDX Fixture.compileMDX [Fixture.B; Fixture.C; Fixture.A] "a"
  = Some {| Markdown.previous :=
              Some (Markdown.frontmatter (Fixture.compileMDX Fixture.B));
            Markdown.current :=
              Some (Markdown.load Fixture.compileMDX Fixture.A);
            Markdown.next := None |} /\
  Markdown.readMDX Fixture.compileMDX [Fixture.B; Fixture.C; Fixture.A] "ccc"
  = Some {| Markdown.previous := None;
            Markdown.current :=
              Some (Markdown.load Fixture.compileMDX Fixture.C);
            Markdown.next :=
              Some (Markdown.frontmatter (Fixture.compileMDX Fixture.B)) |}.
Proof.
  apply (C3_three_documents Fixture.compileMDX
           [Fixture.B; Fixture.C; Fixture.A]
           (Markdown.load Fixture.compileMDX Fixture.A)
           (Markdown.load Fixture.compileMDX Fixture.B)
           (Markdown.load Fixture.compileMDX Fixture.C)).
  - simpl map.
    apply Permutation_sym, (Permutation_cons_app [_; _] []). reflexivity.
  - simpl. lia.
  - simpl. lia.
  - repeat constructor; simpl; intuition discriminate.
Defined.

(** ** The loader over the objects the parser yields *)

Lemma runtime_filter_present {A : Type}
  (p : A -> Runtime.Completion bool) (l : list A) :
  (forall x, In x l -> p x <> Runtime.ThrowTypeError) ->
  exists l', Runtime.filter p l = Runtime.Normal l' /\
             forall x, In x l' <-> In x l /\ p x = Runtime.Normal true.
Proof.
  induction l as [|y r IH]; intros H.
  - exists []. split; [reflexivity |]. simpl. tauto.
  - destruct IH as [r' [Hr' Hin]]; [intros x Hx; apply H; now right |].
    simpl. rewrite Hr'.
    destruct (p y) as [b|] eqn:Ey;
      [| now destruct (H y (or_introl eq_refl))].
    eexists. split; [reflexivity |].
    intros x. destruct b.
    + simpl. rewrite Hin. split.
      * intros [<-|[Hx Ht]]; [| tauto]. split; [now left | exact Ey].
      * intros [[<-|Hx] Ht]; [now left | right; tauto].
    + rewrite Hin. split; [intros [Hx Ht]; tauto |].
      intros [[<-|Hx] Ht]; [congruence | tauto].
Qed.

Lemma runtime_filter_absent {A : Type}
  (p : A -> Runtime.Completion bool) (l : list A) :
  (exists x, In x l /\ p x = Runtime.ThrowTypeError) ->
  Runtime.filter p l = Runtime.ThrowTypeError.
Proof.
  induction l as [|y r IH]; intros [x [Hx Ht]]; [destruct Hx |].
  simpl. destruct (p y) as [b|] eqn:Ey; [| reflexivity].
  rewrite IH; [reflexivity |].
  destruct Hx as [->|Hx]; [congruence |]. now exists x.
Qed.

Lemma stringIncludes_spec (s t : string) :
  Runtime.stringIncludes s t = true <-> exists pre post, s = pre ++ t ++ post.
Proof.
  split.
  - induction s as [|c r IH]; cbn [Runtime.stringIncludes]; intros H;
      apply orb_true_iff in H as [H|H].
    + apply prefix_beginsWith in H as [post ->]. now exists "", post.
    + discriminate H.
    + apply prefix_beginsWith in H as [post ->]. now exists "", post.
    + destruct (IH H) as [pre [post ->]]. now exists (String c pre), post.
  - intros [pre [post ->]].
    induction pre as [|c pre IH].
    + cbn [append].
      assert (String.prefix t (t ++ post) = true) as Hp
        by (apply prefix_beginsWith; now exists post).
      destruct (t ++ post); cbn [Runtime.stringIncludes]; now rewrite Hp.
    + cbn [append Runtime.stringIncludes]. rewrite IH. apply orb_true_r.
Qed.

Lemma arrayIncludes_spec (elements : list Runtime.Element) (tag : string) :
  Runtime.arrayIncludes elements tag = true <->
  In (Runtime.EString tag) elements.
Proof.
  unfold Runtime.arrayIncludes. rewrite existsb_exists. split.
  - intros [[s|] [He H]]; [| discriminate H].
    apply String.eqb_eq in H. now subst.
  - intros H. exists (Runtime.EString tag). split; trivial.
    apply String.eqb_refl.
Qed.

Lemma hasTag_throws (tag : string) (item : Runtime.Frontmatter) :
  Runtime.hasTag tag item = Runtime.ThrowTypeError <-> Spec.tagsUnusable item.
Proof.
  unfold Runtime.hasTag, Spec.tagsUnusable.
  destruct (Runtime.tags item) as [[s|n|elements|]|];
    split; trivial; try discriminate; intros [].
Qed.

Lemma hasTag_true (tag : string) (item : Runtime.Frontmatter) :
  Runtime.hasTag tag item = Runtime.Normal true <-> Spec.listsTag tag item.
Proof.
  unfold Runtime.hasTag, Spec.listsTag.
  destruct (Runtime.tags item) as [[s|n|elements|]|].
  - rewrite <- stringIncludes_spec. split; [now intros [= ->] | now intros ->].
  - split; [discriminate | intros []].
  - rewrite <- arrayIncludes_spec. split; [now intros [= ->] | now intros ->].
  - split; [discriminate | intros []].
  - split; [discriminate | intros []].
Qed.

(** C4, as stated, fails: the frontmatter of the internationalization post
    has neither author nor tags, and the load of a collection that holds it
    returns it, whatever the engine's sort does. *)
Lemma C4_counterexample :
  Runtime.malformed Fixture.i18nPost = true /\
  forall sortByPublished,
    (forall l, Permutation (sortByPublished l) l) ->
    Runtime.getAllMetaData sortByPublished
      (fun _ => Fixture.i18nPost) ["next-i18n.mdx"] ""
    = Runtime.Normal [Fixture.i18nPost].
Proof.
  split; [reflexivity |]. intros sortByPublished Hperm.
  unfold Runtime.getAllMetaData, Arr.run, Arr.bind, Arr.read, Arr.ret.
  cbn [map JS.truthy fst]. f_equal.
  apply Permutation_length_1_inv, Permutation_sym, Hperm.
Qed.

(** C4, amended.  [getAllMetaData] checks no frontmatter.  Without a tag it
    does not fail, and returns the frontmatter of every document, whatever
    fields are absent, in the order the engine's sort leaves.  With a tag it
    throws a [TypeError] when the tags of a document are absent or are
    neither an array nor a string, and otherwise returns the documents whose
    tags are an array that has the tag as an element or a string in which
    the tag occurs. *)
Theorem C4_getAllMetaData_unchecked
  (sortByPublished : list Runtime.Frontmatter -> list Runtime.Frontmatter)
  (compileMDX : string -> Runtime.Frontmatter) (files : list string) :
  (forall l, Permutation (sortByPublished l) l) ->
  (exists l,
     Runtime.getAllMetaData sortByPublished compileMDX files ""
     = Runtime.Normal l /\
     Permutation l (map compileMDX files)) /\
  (forall tag, tag <> "" ->
     ((exists file, In file files /\ Spec.tagsUnusable (compileMDX file)) ->
      Runtime.getAllMetaData sortByPublished compileMDX files tag
      = Runtime.ThrowTypeError) /\
     ((forall file, In file files -> ~ Spec.tagsUnusable (compileMDX file)) ->
      exists l,
        Runtime.getAllMetaData sortByPublished compileMDX files tag
        = Runtime.Normal l /\
        forall x, In x l <->
                  In x (map compileMDX files) /\ Spec.listsTag tag x)).
Proof.
  intros Hsort.
  pose proof (Hsort (map compileMDX files)) as Hperm.
  unfold Runtime.getAllMetaData, Arr.run, Arr.bind, Arr.read, Arr.ret.
  cbn [fst]. split.
  - eexists. split; [reflexivity | exact Hperm].
  - intros tag Htag.
    destruct tag as [|c tag]; [congruence |]. cbn [JS.truthy].
    split.
    + intros [file [Hf Ht]]. apply runtime_filter_absent.
      exists (compileMDX file). split; [| now apply hasTag_throws].
      eapply Permutation_in; [symmetry; exact Hperm |]. now apply in_map.
    + intros Hall.
      destruct (runtime_filter_present (Runtime.hasTag (String c tag))
                  (sortByPublished (map compileMDX files)))
        as [l [Hl Hin]].
      * intros x Hx. apply (Permutation_in _ Hperm) in Hx.
        apply in_map_iff in Hx as [file [<- Hf]].
        rewrite hasTag_throws. now apply Hall.
      * exists l. split; trivial. intros x. rewrite Hin, hasTag_true.
        split; intros [Hx Ht]; (split; [| exact Ht]).
        -- now apply (Permutation_in _ Hperm).
        -- now apply (Permutation_in _ (Permutation_sym Hperm)).
Qed.

Lemma C4_getAllMetaData_unchecked_witness :
  Runtime.getAllMetaData (fun arr => arr)
    (fun _ => Fixture.i18nPost) ["next-i18n.mdx"] "nextjs"
  = Runtime.ThrowTypeError.
Proof.
  destruct (C4_getAllMetaData_unchecked (fun arr => arr)
              (fun _ => Fixture.i18nPost) ["next-i18n.mdx"]) as [_ H].
  - intros l. apply Permutation_refl.
  - destruct (H "nextjs") as [Hthrow _]; [discriminate |].
    apply Hthrow. exists "next-i18n.mdx". split; [now left | exact I].
Defined.

(** * Further properties *)

(** ** The locale resolver and the middleware together *)

Lemma split_cons_sep (sep : ascii) (s : string) :
  JS.split sep (String sep s) = EmptyString :: JS.split sep s.
Proof. simpl. now rewrite Ascii.eqb_refl. Qed.

Lemma getLocale_prefixed (L rest : string) :
  In L Locale.locales ->
  Locale.getLocale ("/" ++ L) = L /\
  Locale.getLocale ("/" ++ L ++ "/" ++ rest) = L.
Proof.
  intros HL. simpl in HL.
  destruct HL as [<-|[<-|[<-|[]]]]; split; try reflexivity;
    unfold Locale.getLocale; simpl;
    destruct (JS.split "/" rest); reflexivity.
Qed.

(** X1.  What [getLocale] returns is one of the enumerated locales,
    whatever the pathname, the empty one and one without segments
    included. *)
Theorem X1_getLocale_enumerated (P : string) :
  In (Locale.getLocale P) Locale.locales /\
  (Locale.getLocale P = "en" \/ Locale.getLocale P = "fr" \/
   Locale.getLocale P = "ja").
Proof.
  pose proof (getLocale_In P) as H. split; trivial.
  simpl in H. intuition congruence.
Qed.

(** X2.  On a pathname that has a locale prefix, [getLocale] resolves the
    locale of that prefix. *)
Theorem X2_getLocale_of_prefix (P : string) :
  Locale.pathnameHasLocale P = true ->
  Spec.beginsWith P ("/" ++ Locale.getLocale P ++ "/") \/
  P = "/" ++ Locale.getLocale P.
Proof.
  intros H. apply pathnameHasLocale_spec in H as [L [HL [[rest ->]| ->]]].
  - left. exists rest.
    replace (("/" ++ L ++ "/") ++ rest) with ("/" ++ L ++ "/" ++ rest)
      by (simpl; f_equal; now rewrite append_assoc).
    destruct (getLocale_prefixed L rest HL) as [_ ->].
    simpl. f_equal. now rewrite append_assoc.
  - right. now destruct (getLocale_prefixed L EmptyString HL) as [-> _].
Qed.

Lemma X2_getLocale_of_prefix_witness :
  Spec.beginsWith "/ja/blog/next-i18n"
    ("/" ++ Locale.getLocale "/ja/blog/next-i18n" ++ "/") \/
  "/ja/blog/next-i18n" = "/" ++ Locale.getLocale "/ja/blog/next-i18n".
Proof. apply (X2_getLocale_of_prefix "/ja/blog/next-i18n"). reflexivity. Defined.

Lemma append_nil_r (s : string) : s ++ "" = s.
Proof. induction s as [|c s IH]; simpl; [reflexivity | now rewrite IH]. Qed.

(** A pathname under an enumerated locale has a locale prefix, and that
    locale is resolved on it. *)
Lemma locale_path_passes (L rest : string) :
  In L Locale.locales -> rest = EmptyString \/ Spec.beginsWith rest "/" ->
  Locale.pathnameHasLocale ("/" ++ L ++ rest) = true /\
  Locale.getLocale ("/" ++ L ++ rest) = L.
Proof.
  intros HL [->|[rest' ->]].
  - rewrite append_nil_r. split; [| apply (getLocale_prefixed L EmptyString HL)].
    apply pathnameHasLocale_spec. exists L. split; trivial. now right.
  - split; [| apply (getLocale_prefixed L rest' HL)].
    apply pathnameHasLocale_spec. exists L. split; trivial.
    left. exists rest'. simpl. f_equal. now rewrite append_assoc.
Qed.

(** How a concatenation can end with a given character. *)
Lemma append_snoc_split (a b t : string) (c : ascii) :
  a ++ b = t ++ String c "" ->
  (b = "" /\ a = t ++ String c "") \/
  (exists b', b = b' ++ String c "" /\ t = a ++ b').
Proof.
  revert t. induction a as [|x a IH]; intros t H.
  - right. exists t. split; [exact H | reflexivity].
  - destruct t as [|y t]; simpl in H.
    + injection H as -> H. destruct a; [| discriminate H].
      simpl in H. subst b. now left.
    + injection H as -> H. destruct (IH t H) as [[-> ->]|[b' [-> ->]]].
      * now left.
      * right. now exists b'.
Qed.

Lemma locale_no_trailing_slash (L t : string) :
  In L Locale.locales -> "/" ++ L <> t ++ "/".
Proof.
  intros HL H. simpl in HL.
  destruct HL as [<-|[<-|[<-|[]]]];
    destruct t as [|? [|? [|? [|? ?]]]]; simpl in H; discriminate H.
Qed.

(** X3.  There is no redirect loop.  The pathname the middleware sets for
    the redirect, on a pathname that is empty or begins with a slash, is one
    the middleware lets pass, and so is that pathname with the slash at its
    end dropped or with a slash added, as the location the framework writes
    may have it; and the locale resolved on it is the one that was
    resolved. *)
Theorem X3_redirect_target_passes (href : string -> string)
  (P followed : string) :
  P = EmptyString \/ Spec.beginsWith P "/" ->
  Locale.pathnameHasLocale P = false ->
  Spec.upToTrailingSlash (snd (Middleware.middleware href P)) followed ->
  Locale.pathnameHasLocale followed = true /\
  Middleware.middleware href followed = (None, followed) /\
  Locale.getLocale followed = Locale.getLocale P.
Proof.
  intros HP Hno Hfollowed.
  unfold Middleware.middleware in Hfollowed. rewrite Hno in Hfollowed.
  cbn [snd] in Hfollowed.
  pose proof (getLocale_In P) as HL.
  set (L := Locale.getLocale P) in *.
  assert (exists rest, followed = "/" ++ L ++ rest /\
                       (rest = EmptyString \/ Spec.beginsWith rest "/"))
    as [rest [-> Hrest]].
  { destruct Hfollowed as [->|[H| ->]].
    - now exists P.
    - change ("/" ++ L ++ P) with (("/" ++ L) ++ P) in H.
      apply append_snoc_split in H as [[_ H]|[b' [E ->]]].
      + now destruct (locale_no_trailing_slash L followed HL).
      + exists b'. split; [reflexivity |].
        destruct b' as [|c b']; [now left | right].
        destruct HP as [->|[r ->]]; [discriminate E |].
        simpl in E. injection E as <- _. now exists b'.
    - exists (P ++ "/"). split.
      + simpl. f_equal. now rewrite append_assoc.
      + right. destruct HP as [->|[r ->]];
          [now exists "" | now exists (r ++ "/")]. }
  destruct (locale_path_passes L rest HL Hrest) as [Hhas Hloc].
  repeat split; trivial.
  unfold Middleware.middleware. now rewrite Hhas.
Qed.

Lemma X3_redirect_target_passes_witness :
  Middleware.middleware (fun pathname => pathname) "/en"
  = (None, "/en") /\
  Locale.getLocale "/en" = Locale.getLocale "/".
Proof.
  destruct (X3_redirect_target_passes (fun pathname => pathname) "/" "/en")
    as [_ H].
  - right. now exists "".
  - reflexivity.
  - right. left. reflexivity.
  - exact H.
Defined.

(** ** The language selector *)

Lemma replaceFirst_here (rep rest : string) (a b : ascii) :
  LangSelect.isLower a = true -> LangSelect.isLower b = true ->
  LangSelect.replaceFirst rep (String "/" (String a (String b rest)))
  = rep ++ rest.
Proof. intros Ha Hb. simpl. now rewrite Ha, Hb. Qed.

Lemma replaceFirst_skip (rep : string) (c : ascii) (r : string) :
  ~ Spec.localeLike (String c r) ->
  LangSelect.replaceFirst rep (String c r)
  = String c (LangSelect.replaceFirst rep r).
Proof.
  intros Hno. destruct r as [|a [|b rest]]; try reflexivity.
  cbn [LangSelect.replaceFirst].
  destruct (Ascii.eqb_spec c "/") as [->|Hc]; [| reflexivity].
  destruct (LangSelect.isLower a) eqn:Ha; [| reflexivity].
  destruct (LangSelect.isLower b) eqn:Hb; [| reflexivity].
  destruct Hno. now exists a, b, rest.
Qed.

(** X4.  For a locale without [$], [handleChangeLocale] rewrites the
    leftmost slash that two lower-case letters follow, and only that: what
    is before it and what is after the two letters is kept; a pathname
    without such a place is left as it is. *)
Theorem X4_handleChangeLocale_leftmost (newLocale : string) :
  Spec.plain newLocale = true ->
  (forall pre a b rest,
     LangSelect.isLower a = true -> LangSelect.isLower b = true ->
     (forall pre1 c pre2, pre = pre1 ++ String c pre2 ->
        ~ Spec.localeLike
            (String c pre2 ++ String "/" (String a (String b rest)))) ->
     LangSelect.handleChangeLocale
       (pre ++ String "/" (String a (String b rest))) newLocale
     = pre ++ "/" ++ newLocale ++ rest) /\
  (forall P,
     (forall pre suf, P = pre ++ suf -> ~ Spec.localeLike suf) ->
     LangSelect.handleChangeLocale P newLocale = P).
Proof.
  intros _. unfold LangSelect.handleChangeLocale. split.
  - intros pre a b rest Ha Hb.
    induction pre as [|c pre IH]; intros Hpre.
    + cbn [append]. rewrite (replaceFirst_here _ _ _ _ Ha Hb).
      reflexivity.
    + change (String c pre ++ String "/" (String a (String b rest)))
        with (String c (pre ++ String "/" (String a (String b rest)))).
      rewrite replaceFirst_skip.
      * rewrite IH; [reflexivity |].
        intros pre1 d pre2 ->. apply (Hpre (String c pre1) d pre2).
        reflexivity.
      * apply (Hpre EmptyString c pre). reflexivity.
  - intros P. induction P as [|c r IH]; intros Hno; [reflexivity |].
    rewrite replaceFirst_skip.
    + rewrite IH; [reflexivity |].
      intros pre suf ->. apply (Hno (String c pre) suf). reflexivity.
    + apply (Hno EmptyString (String c r)). reflexivity.
Qed.

Lemma X4_handleChangeLocale_leftmost_witness :
  LangSelect.handleChangeLocale "/Docs/en/intro" "ja" = "/Docs/ja/intro" /\
  LangSelect.handleChangeLocale "/" "ja" = "/".
Proof.
  destruct (X4_handleChangeLocale_leftmost "ja" eq_refl) as [Hfirst Hnone].
  split.
  - apply (Hfirst "/Docs" "e"%char "n"%char "/intro");
      [reflexivity | reflexivity |].
    intros pre1 c pre2 E [a [b [rest [H [Ha Hb]]]]].
    destruct pre1 as [|c1 pre1]; simpl in E.
    { injection E as <- <-. simpl in H. injection H as <- _ _.
      discriminate Ha. }
    injection E as _ E.
    destruct pre1 as [|c2 pre1]; simpl in E.
    { injection E as <- <-. simpl in H. injection H as H _. discriminate H. }
    injection E as _ E.
    destruct pre1 as [|c3 pre1]; simpl in E.
    { injection E as <- <-. simpl in H. injection H as H _. discriminate H. }
    injection E as _ E.
    destruct pre1 as [|c4 pre1]; simpl in E.
    { injection E as <- <-. simpl in H. injection H as H _. discriminate H. }
    injection E as _ E.
    destruct pre1 as [|c5 pre1]; simpl in E.
    { injection E as <- <-. simpl in H. injection H as H _. discriminate H. }
    injection E as _ E. destruct pre1; discriminate E.
  - apply Hnone. intros pre suf E [a [b [rest [H _]]]]. subst suf.
    destruct pre as [|c pre]; simpl in E; [discriminate E |].
    injection E as _ E. destruct pre; discriminate E.
Defined.

(** X5.  Switching the locale and switching back gives the pathname one
    started from, when the pathname begins with a two-letter code and both
    codes are two lower-case letters. *)
Theorem X5_handleChangeLocale_round_trip (old new rest : string) :
  Spec.twoLetters old -> Spec.twoLetters new ->
  LangSelect.handleChangeLocale
    (LangSelect.handleChangeLocale ("/" ++ old ++ rest) new) old
  = "/" ++ old ++ rest.
Proof.
  intros [a [b [-> [Ha Hb]]]] [c [d [-> [Hc Hd]]]].
  unfold LangSelect.handleChangeLocale. cbn [append].
  rewrite (replaceFirst_here _ _ _ _ Ha Hb). cbn [append].
  now rewrite (replaceFirst_here _ _ _ _ Hc Hd).
Qed.

Lemma X5_handleChangeLocale_round_trip_witness :
  LangSelect.handleChangeLocale
    (LangSelect.handleChangeLocale ("/" ++ "en" ++ "/blog") "ja") "en"
  = "/" ++ "en" ++ "/blog".
Proof.
  apply X5_handleChangeLocale_round_trip.
  - exists "e"%char, "n"%char. repeat split.
  - exists "j"%char, "a"%char. repeat split.
Defined.

(** X6.  From a pathname under any enumerated locale, switching to a code
    the selector offers gives the same pathname under that code; the
    middleware lets it pass, [getLocale] resolves the code on it, and
    [getDictionary] has a dictionary for it. *)
Theorem X6_switch_locale (href : string -> string)
  (L code rest : string) :
  In L Locale.locales -> In code LangSelect.availableCodes ->
  rest = EmptyString \/ Spec.beginsWith rest "/" ->
  let target := LangSelect.handleChangeLocale ("/" ++ L ++ rest) code in
  target = "/" ++ code ++ rest /\
  Middleware.middleware href target = (None, target) /\
  Locale.getLocale target = code /\
  Dictionary.isDictionary (Dictionary.getDictionary (Locale.getLocale target))
  = true.
Proof.
  intros HL Hcode Hrest. cbv zeta.
  assert (LangSelect.handleChangeLocale ("/" ++ L ++ rest) code
          = "/" ++ code ++ rest) as ->.
  { unfold LangSelect.handleChangeLocale. simpl in HL.
    destruct HL as [<-|[<-|[<-|[]]]]; cbn [append];
      rewrite replaceFirst_here by reflexivity; reflexivity. }
  assert (In code Locale.locales) as Hc.
  { simpl in Hcode |- *. intuition. }
  assert (Locale.getLocale ("/" ++ code ++ rest) = code
          /\ Locale.pathnameHasLocale ("/" ++ code ++ rest) = true)
    as [Hloc Hhas].
  { destruct Hrest as [->|[rest' ->]].
    - assert (code ++ "" = code) as ->.
      { simpl in Hcode. destruct Hcode as [<-|[<-|[]]]; reflexivity. }
      split; [apply (getLocale_prefixed code EmptyString Hc) |].
      apply pathnameHasLocale_spec. exists code. split; trivial. now right.
    - split; [apply (getLocale_prefixed code rest' Hc) |].
      apply pathnameHasLocale_spec. exists code. split; trivial.
      left. exists rest'. simpl. f_equal. now rewrite append_assoc. }
  repeat split.
  - unfold Middleware.middleware. now rewrite Hhas.
  - exact Hloc.
  - rewrite Hloc. simpl in Hcode. destruct Hcode as [<-|[<-|[]]]; reflexivity.
Qed.

Lemma X6_switch_locale_witness :
  Middleware.middleware (fun pathname => pathname) "/ja/blog"
  = (None, "/ja/blog") /\
  Locale.getLocale "/ja/blog" = "ja".
Proof.
  destruct (X6_switch_locale (fun pathname => pathname) "fr" "ja" "/blog")
    as [_ [Hmw [Hloc _]]].
  - simpl. tauto.
  - simpl. tauto.
  - right. now exists "blog".
  - split; [exact Hmw | exact Hloc].
Defined.

(** ** [readMDX]: what the result is made of *)

Lemma findIndex_found {A : Type} (p : A -> bool) (l : list A) :
  JS.findIndex p l <> -1 -> exists i x, Spec.firstAt p l i x.
Proof.
  intros H.
  destruct (existsb p l) eqn:E.
  - apply existsb_exists in E as [x [Hx Hp]].
    now apply (firstAt_exists p l x).
  - destruct H. apply findIndex_none. intros x Hx.
    destruct (p x) eqn:Px; trivial.
    assert (existsb p l = true) by (apply existsb_exists; now exists x).
    congruence.
Qed.

Lemma readMDX_some {Content : Type}
  (compileMDX : string -> Markdown.Compiled Content)
  (files : list string) (slug_ : string) (r : Markdown.Pagination Content) :
  Markdown.readMDX compileMDX files slug_ = Some r ->
  exists i d,
    Spec.firstAt (Spec.hasSlug slug_) (Spec.sortedDocs compileMDX files) i d /\
    Markdown.current r = Some d /\
    Markdown.previous r
    = option_map Markdown.meta
        (nth_error (Spec.sortedDocs compileMDX files) (S i)) /\
    Markdown.next r
    = match i with
      | O => None
      | S j => option_map Markdown.meta
                 (nth_error (Spec.sortedDocs compileMDX files) j)
      end.
Proof.
  intros H.
  assert (JS.findIndex (Spec.hasSlug slug_) (Spec.sortedDocs compileMDX files)
          <> -1) as Hne.
  { intros E. rewrite readMDX_unfold in H. cbv zeta in H.
    rewrite E in H. discriminate H. }
  destruct (findIndex_found _ _ Hne) as [i [d Hd]].
  exists i, d. rewrite (readMDX_present compileMDX files slug_ i d Hd) in H.
  injection H as <-. split; [exact Hd |]. repeat split.
Qed.

Lemma estimateReadingTime_ge_1 (text : string) :
  1 <= Markdown.estimateReadingTime text.
Proof.
  rewrite estimateReadingTime_pieces.
  pose proof (pieces_positive text) as Hp.
  pose proof (ceilDiv_isCeilingOf
                (Z.of_nat (Spec.wordCount text)
                 + Z.b2z (Spec.leadingGap text)
                 + Z.b2z (Spec.trailingGap text)) 200 ltac:(lia)) as [_ H].
  lia.
Qed.

Lemma sortedDocs_In {Content : Type}
  (compileMDX : string -> Markdown.Compiled Content)
  (files : list string) (d : Markdown.Document Content) :
  In d (Spec.sortedDocs compileMDX files) <->
  exists file, In file files /\ d = Markdown.load compileMDX file.
Proof.
  split.
  - intros H. apply (Permutation_in _ (sortedDocs_perm compileMDX files)) in H.
    apply in_map_iff in H as [file [<- Hf]]. now exists file.
  - intros [file [Hf ->]].
    apply (Permutation_in _ (Permutation_sym (sortedDocs_perm compileMDX files))).
    now apply in_map.
Qed.

Lemma StronglySorted_nth {A : Type} (R : A -> A -> Prop) (l : list A)
  (i j : nat) (a b : A) :
  StronglySorted R l -> (i < j)%nat ->
  nth_error l i = Some a -> nth_error l j = Some b -> R a b.
Proof.
  intros Hs. revert i j. induction Hs as [|x l Hs IH Hall]; intros i j Hij Ha Hb.
  - destruct i; discriminate.
  - destruct j as [|j]; [lia |]. simpl in Hb.
    destruct i as [|i]; simpl in Ha.
    + injection Ha as <-. rewrite Forall_forall in Hall. apply Hall.
      eapply nth_error_In. exact Hb.
    + apply (IH i j); trivial. lia.
Qed.

(** X7.  What [readMDX] returns is made of the documents of the
    collection: [current] is the document loaded from one of the files, has
    the slug asked for and a reading time of at least one minute, and
    [previous] and [next], when present, are the frontmatter of files of the
    collection. *)
Theorem X7_readMDX_from_collection {Content : Type}
  (compileMDX : string -> Markdown.Compiled Content)
  (files : list string) (slug_ : string) (r : Markdown.Pagination Content) :
  Markdown.readMDX compileMDX files slug_ = Some r ->
  (exists file, In file files /\
                Markdown.current r = Some (Markdown.load compileMDX file) /\
                Markdown.slug (Markdown.frontmatter (compileMDX file)) = slug_ /\
                Markdown.timeToRead (Markdown.load compileMDX file)
                = Markdown.estimateReadingTime file /\
                1 <= Markdown.timeToRead (Markdown.load compileMDX file)) /\
  (forall p, Markdown.previous r = Some p ->
             exists file, In file files /\
                          p = Markdown.frontmatter (compileMDX file)) /\
  (forall n, Markdown.next r = Some n ->
             exists file, In file files /\
                          n = Markdown.frontmatter (compileMDX file)).
Proof.
  intros H. apply readMDX_some in H as [i [d [[Hn [Hp _]] [Hc [Hprev Hnext]]]]].
  assert (forall j x,
            option_map Markdown.meta
              (nth_error (Spec.sortedDocs compileMDX files) j) = Some x ->
            exists file, In file files /\
                         x = Markdown.frontmatter (compileMDX file)) as Hmeta.
  { intros j x E.
    destruct (nth_error (Spec.sortedDocs compileMDX files) j) as [y|] eqn:Ey;
      [| discriminate].
    injection E as <-. apply nth_error_In, sortedDocs_In in Ey
      as [file [Hf ->]].
    now exists file. }
  split; [| split].
  - apply nth_error_In, sortedDocs_In in Hn as [file [Hf ->]].
    exists file. repeat split; trivial.
    + now apply String.eqb_eq in Hp.
    + apply estimateReadingTime_ge_1.
  - intros p E. rewrite Hprev in E. now apply (Hmeta (S i)).
  - intros n E. rewrite Hnext in E. destruct i as [|j]; [discriminate |].
    now apply (Hmeta j).
Qed.

Lemma option_map_none {A B : Type} (f : A -> B) (o : option A) :
  option_map f o = None -> o = None.
Proof. now destruct o. Qed.

(** X8.  The siblings are on the right sides: [previous] is not older than
    the current document and [next] is not newer; and when [previous] is
    absent no document of the collection is newer than the current one, when
    [next] is absent none is older. *)
Theorem X8_readMDX_sibling_order {Content : Type}
  (compileMDX : string -> Markdown.Compiled Content)
  (files : list string) (slug_ : string) (r : Markdown.Pagination Content)
  (c : Markdown.Document Content) :
  Markdown.readMDX compileMDX files slug_ = Some r ->
  Markdown.current r = Some c ->
  (forall p, Markdown.previous r = Some p ->
             Markdown.published (Markdown.meta c) <= Markdown.published p) /\
  (forall n, Markdown.next r = Some n ->
             Markdown.published n <= Markdown.published (Markdown.meta c)) /\
  (Markdown.previous r = None ->
   forall file, In file files ->
     Markdown.published (Markdown.frontmatter (compileMDX file))
     <= Markdown.published (Markdown.meta c)) /\
  (Markdown.next r = None ->
   forall file, In file files ->
     Markdown.published (Markdown.meta c)
     <= Markdown.published (Markdown.frontmatter (compileMDX file))).
Proof.
  intros H Hcur.
  apply readMDX_some in H as [i [d [[Hn _] [Hc [Hprev Hnext]]]]].
  rewrite Hcur in Hc. injection Hc as ->.
  pose proof (sortedDocs_ascending compileMDX files) as Hs.
  unfold Spec.ascendingBy in Hs.
  set (sorted := Spec.sortedDocs compileMDX files) in *.
  assert (forall file, In file files ->
            exists j, nth_error sorted j
                      = Some (Markdown.load compileMDX file)) as Hidx.
  { intros file Hf. apply In_nth_error, sortedDocs_In. now exists file. }
  repeat split.
  - intros p E. rewrite Hprev in E.
    destruct (nth_error sorted (S i)) as [y|] eqn:Ey; [| discriminate].
    injection E as <-.
    apply (StronglySorted_nth _ _ i (S i) d y Hs); trivial. lia.
  - intros n E. rewrite Hnext in E. destruct i as [|j]; [discriminate |].
    destruct (nth_error sorted j) as [y|] eqn:Ey; [| discriminate].
    injection E as <-.
    apply (StronglySorted_nth _ _ j (S j) y d Hs); trivial. lia.
  - intros E file Hf. rewrite Hprev in E. apply option_map_none in E.
    apply nth_error_None in E.
    destruct (Hidx file Hf) as [j Hj].
    assert (j < List.length sorted)%nat as Hlt
      by (apply nth_error_Some; congruence).
    destruct (Nat.eq_dec j i) as [->|Hne].
    + rewrite Hn in Hj. injection Hj as ->. reflexivity.
    + assert (j < i)%nat as Hji by lia.
      apply (StronglySorted_nth _ _ j i _ d Hs Hji Hj Hn).
  - intros E file Hf. destruct i as [|i'].
    + destruct (Hidx file Hf) as [j Hj]. destruct j as [|j].
      * rewrite Hn in Hj. injection Hj as ->. reflexivity.
      * exact (StronglySorted_nth _ _ 0%nat (S j) d _ Hs
                 (Nat.lt_0_succ j) Hn Hj).
    + rewrite Hnext in E. apply option_map_none in E.
      apply nth_error_None in E.
      assert (S i' < List.length sorted)%nat
        by (apply nth_error_Some; congruence).
      lia.
Qed.

Lemma firstAt_unique_slug {Content : Type}
  (l : list (Markdown.Document Content)) (j : nat)
  (d : Markdown.Document Content) :
  NoDup (map (fun x => Markdown.slug (Markdown.meta x)) l) ->
  nth_error l j = Some d ->
  Spec.firstAt (Spec.hasSlug (Markdown.slug (Markdown.meta d))) l j d.
Proof.
  intros Hnd Hj. repeat split; trivial.
  - apply String.eqb_refl.
  - intros k y Hk Hy. unfold Spec.hasSlug. apply String.eqb_neq. intros E.
    rewrite NoDup_nth_error in Hnd.
    assert (k = j); [| lia].
    apply Hnd.
    + rewrite length_map. apply nth_error_Some. congruence.
    + rewrite !nth_error_map, Hy, Hj. simpl. now rewrite E.
Qed.

Lemma sortedDocs_unique_slugs {Content : Type}
  (compileMDX : string -> Markdown.Compiled Content) (files : list string) :
  NoDup (map (fun file => Markdown.slug (Markdown.frontmatter (compileMDX file)))
           files) ->
  NoDup (map (fun x => Markdown.slug (Markdown.meta x))
           (Spec.sortedDocs compileMDX files)).
Proof.
  intros H.
  eapply Permutation_NoDup.
  - apply Permutation_map, Permutation_sym, sortedDocs_perm.
  - now rewrite map_map.
Qed.

(** X9.  With unique slugs, [previous] and [next] undo each other: the
    [next] of the document that is [previous] is the current document, and
    the [previous] of the document that is [next] is the current
    document. *)
Theorem X9_readMDX_siblings_inverse {Content : Type}
  (compileMDX : string -> Markdown.Compiled Content)
  (files : list string) (slug_ : string) (r : Markdown.Pagination Content) :
  NoDup (map (fun file => Markdown.slug (Markdown.frontmatter (compileMDX file)))
           files) ->
  Markdown.readMDX compileMDX files slug_ = Some r ->
  (forall p, Markdown.previous r = Some p ->
     exists r', Markdown.readMDX compileMDX files (Markdown.slug p) = Some r' /\
                Markdown.next r'
                = option_map Markdown.meta (Markdown.current r)) /\
  (forall n, Markdown.next r = Some n ->
     exists r', Markdown.readMDX compileMDX files (Markdown.slug n) = Some r' /\
                Markdown.previous r'
                = option_map Markdown.meta (Markdown.current r)).
Proof.
  intros Hnd H.
  apply sortedDocs_unique_slugs in Hnd.
  apply readMDX_some in H as [i [d [[Hn _] [Hc [Hprev Hnext]]]]].
  rewrite Hc. split.
  - intros p E. rewrite Hprev in E.
    destruct (nth_error (Spec.sortedDocs compileMDX files) (S i)) as [y|] eqn:Ey;
      [| discriminate].
    injection E as <-. eexists. split.
    + apply (readMDX_present compileMDX files _ (S i) y).
      now apply firstAt_unique_slug.
    + cbn [Markdown.next]. now rewrite Hn.
  - intros n E. rewrite Hnext in E. destruct i as [|j]; [discriminate |].
    destruct (nth_error (Spec.sortedDocs compileMDX files) j) as [y|] eqn:Ey;
      [| discriminate].
    injection E as <-. eexists. split.
    + apply (readMDX_present compileMDX files _ j y).
      now apply firstAt_unique_slug.
    + cbn [Markdown.previous]. now rewrite Hn.
Qed.

(** ** The order the files are listed in *)

Section OrderIndependence.

Context {A : Type} (key : A -> Z) (cmp : A -> A -> Z).
Hypothesis cmp_key : forall x y, cmp x y = key x - key y.

Lemma ascending_strict (l : list A) :
  NoDup (map key l) -> Spec.ascendingBy key l ->
  StronglySorted (fun a b => key a < key b) l.
Proof.
  unfold Spec.ascendingBy. intros Hnd Hs.
  induction Hs as [|x l Hs IH Hall]; [constructor |].
  simpl in Hnd. apply NoDup_cons_iff in Hnd as [Hx Hnd].
  constructor; [now apply IH |].
  rewrite Forall_forall in Hall |- *. intros y Hy.
  specialize (Hall y Hy).
  assert (key x <> key y); [| lia].
  intros E. apply Hx. rewrite E. now apply in_map.
Qed.

(** Two listings of elements with distinct keys sort to the same array. *)
Lemma sort_of_permutation (l l' : list A) :
  NoDup (map key l) -> Permutation l l' ->
  JS.sort cmp l = JS.sort cmp l'.
Proof.
  intros Hnd Hp.
  apply (sorted_unique key).
  - apply (sort_sorted key cmp cmp_key).
  - rewrite (sort_perm cmp l), (sort_perm cmp l'). exact Hp.
  - apply ascending_strict.
    + eapply Permutation_NoDup; [| exact Hnd].
      apply Permutation_map. rewrite (sort_perm cmp l'). exact Hp.
    + apply (sort_sorted key cmp cmp_key).
Qed.

End OrderIndependence.

Lemma NoDup_map_opp {A : Type} (f : A -> Z) (l : list A) :
  NoDup (map f l) -> NoDup (map (fun x => - f x) l).
Proof.
  induction l as [|x r IH]; simpl; intros H; [constructor |].
  apply NoDup_cons_iff in H as [Hx Hr].
  constructor; [| now apply IH].
  intros Hin. apply Hx.
  apply in_map_iff in Hin as [y [E Hy]].
  apply in_map_iff. exists y. split; [lia | trivial].
Qed.

(** X10.  When the timestamps of the collection are pairwise distinct, the
    order in which the directory lists the files does not matter: [readMDX],
    [getAllMetaData] and [getAllTags] return the same for two listings of
    the same files. *)
Theorem X10_listing_order_irrelevant {Content : Type}
  (compileMDX : string -> Markdown.Compiled Content)
  (files files' : list string) :
  NoDup (map (fun file =>
                Markdown.published (Markdown.frontmatter (compileMDX file)))
           files) ->
  Permutation files files' ->
  (forall slug_, Markdown.readMDX compileMDX files slug_
                 = Markdown.readMDX compileMDX files' slug_) /\
  (forall tag, Markdown.getAllMetaData compileMDX files tag
               = Markdown.getAllMetaData compileMDX files' tag) /\
  Markdown.getAllTags compileMDX files = Markdown.getAllTags compileMDX files'.
Proof.
  intros Hnd Hp.
  assert (Spec.sortedDocs compileMDX files = Spec.sortedDocs compileMDX files')
    as Hdocs.
  { apply (sort_of_permutation _ _ byPublishedAsc_key).
    - now rewrite map_map.
    - now apply Permutation_map. }
  assert (forall tag, Markdown.getAllMetaData compileMDX files tag
                      = Markdown.getAllMetaData compileMDX files' tag)
    as Hmeta.
  { intros tag.
    unfold Markdown.getAllMetaData, Arr.run, Arr.bind, Arr.sort, Arr.read,
      Arr.ret. cbn [fst].
    rewrite (sort_of_permutation _ _ byPublishedDesc_key
               (map (fun file => Markdown.frontmatter (compileMDX file)) files)
               (map (fun file => Markdown.frontmatter (compileMDX file)) files'));
      trivial.
    - rewrite map_map. apply NoDup_map_opp in Hnd. exact Hnd.
    - now apply Permutation_map. }
  split; [| split; trivial].
  - intros slug_. rewrite !readMDX_unfold. now rewrite Hdocs.
  - unfold Markdown.getAllTags. now rewrite Hmeta.
Qed.

(** ** [getAllMetaData]: order and content *)

Lemma StronglySorted_weaken {A : Type} (R R' : A -> A -> Prop) (l : list A) :
  (forall a b, R a b -> R' a b) -> StronglySorted R l -> StronglySorted R' l.
Proof.
  intros HR Hs. induction Hs as [|x l Hs IH Hall]; constructor; trivial.
  eapply Forall_impl; [| exact Hall]. apply HR.
Qed.

Lemma StronglySorted_filter {A : Type} (R : A -> A -> Prop) (p : A -> bool)
  (l : list A) :
  StronglySorted R l -> StronglySorted R (filter p l).
Proof.
  intros Hs. induction Hs as [|x l Hs IH Hall]; simpl; [constructor |].
  destruct (p x); trivial. constructor; trivial.
  rewrite Forall_forall in Hall |- *. intros y Hy.
  apply filter_In in Hy as [Hy _]. now apply Hall.
Qed.

Lemma getAllMetaData_unfold {Content : Type}
  (compileMDX : string -> Markdown.Compiled Content)
  (files : list string) (tag : string) :
  Markdown.getAllMetaData compileMDX files tag
  = let sorted :=
      JS.sort Markdown.byPublishedDesc
        (map (fun file => Markdown.frontmatter (compileMDX file)) files) in
    if JS.truthy tag then filter (Markdown.hasTag tag) sorted else sorted.
Proof. reflexivity. Qed.

(** X11.  What [getAllMetaData] returns is in descending order of the
    timestamps, with or without a tag, and holds frontmatter of files of the
    collection only; without a tag it holds the frontmatter of every file,
    each as often as the collection does. *)
Theorem X11_getAllMetaData_descending {Content : Type}
  (compileMDX : string -> Markdown.Compiled Content)
  (files : list string) (tag : string) :
  Spec.descendingBy Markdown.published
    (Markdown.getAllMetaData compileMDX files tag) /\
  (forall d, In d (Markdown.getAllMetaData compileMDX files tag) ->
             exists file, In file files /\
                          d = Markdown.frontmatter (compileMDX file)) /\
  Permutation (Markdown.getAllMetaData compileMDX files EmptyString)
    (map (fun file => Markdown.frontmatter (compileMDX file)) files).
Proof.
  rewrite !getAllMetaData_unfold. cbv zeta.
  set (docs := map (fun file => Markdown.frontmatter (compileMDX file)) files).
  assert (Spec.descendingBy Markdown.published
            (JS.sort Markdown.byPublishedDesc docs)) as Hs.
  { pose proof (sort_sorted _ _ byPublishedDesc_key docs) as H.
    unfold Spec.ascendingBy in H. unfold Spec.descendingBy.
    eapply StronglySorted_weaken; [| exact H]. simpl. intros; lia. }
  assert (forall d, In d (JS.sort Markdown.byPublishedDesc docs) ->
                    exists file, In file files /\
                                 d = Markdown.frontmatter (compileMDX file))
    as Hin.
  { intros d Hd. apply (Permutation_in _ (sort_perm _ docs)) in Hd.
    apply in_map_iff in Hd as [file [<- Hf]]. now exists file. }
  split; [| split].
  - destruct (JS.truthy tag); trivial. now apply StronglySorted_filter.
  - intros d Hd. apply Hin. destruct (JS.truthy tag); trivial.
    now apply filter_In in Hd as [Hd _].
  - apply sort_perm.
Qed.

Lemma sort_equal_keys {A : Type} (key : A -> Z) (cmp : A -> A -> Z)
  (k : Z) (l : list A) :
  (forall x y, cmp x y = key x - key y) ->
  (forall x, In x l -> key x = k) -> JS.sort cmp l = l.
Proof.
  intros Hcmp. induction l as [|x r IH]; intros Hk; [reflexivity |].
  simpl. fold (JS.sort cmp r).
  rewrite IH by (intros y Hy; apply Hk; now right).
  destruct r as [|y r']; [reflexivity |]. simpl.
  rewrite Hcmp, (Hk x), (Hk y); simpl; auto.
  now rewrite Z.sub_diag.
Qed.

(** X12.  Documents with the same timestamp stay in the order the directory
    lists them, in the array [getAllMetaData] returns as in the array
    [readMDX] reads from. *)
Theorem X12_ties_keep_listing_order {Content : Type}
  (compileMDX : string -> Markdown.Compiled Content)
  (files : list string) (ts : Z) :
  filter (fun d => Markdown.published d =? ts)
    (Markdown.getAllMetaData compileMDX files EmptyString)
  = filter (fun d => Markdown.published d =? ts)
      (map (fun file => Markdown.frontmatter (compileMDX file)) files) /\
  filter (fun d => Markdown.published (Markdown.meta d) =? ts)
    (JS.sort Markdown.byPublishedAsc (map (Markdown.load compileMDX) files))
  = filter (fun d => Markdown.published (Markdown.meta d) =? ts)
      (map (Markdown.load compileMDX) files).
Proof.
  split.
  - rewrite getAllMetaData_unfold. cbv zeta. cbn [JS.truthy].
    rewrite <- (sort_filter _ _ byPublishedDesc_key).
    apply (sort_equal_keys (fun f => - Markdown.published f) _ (- ts)).
    + apply byPublishedDesc_key.
    + intros x Hx. apply filter_In in Hx as [_ Hx]. cbv beta. lia.
  - rewrite <- (sort_filter _ _ byPublishedAsc_key).
    apply (sort_equal_keys
             (fun d => Markdown.published (Markdown.meta d)) _ ts).
    + apply byPublishedAsc_key.
    + intros x Hx. apply filter_In in Hx as [_ Hx]. cbv beta. lia.
Qed.

(** ** [getAllTags] *)

Lemma map_get_set {V : Type} (t k : string) (v : V) (m : JSMap.t V) :
  JSMap.get t (JSMap.set k v m)
  = if String.eqb t k then Some v else JSMap.get t m.
Proof.
  induction m as [|[k' v'] r IH]; simpl; [reflexivity |].
  destruct (String.eqb_spec k k') as [<-|Hk]; simpl.
  - now destruct (String.eqb t k).
  - rewrite IH. destruct (String.eqb_spec t k') as [->|Ht]; trivial.
    destruct (String.eqb_spec k' k); [congruence | reflexivity].
Qed.

Lemma map_get_keys {V : Type} (t : string) (m : JSMap.t V) :
  In t (JSMap.keys m) <-> JSMap.get t m <> None.
Proof.
  unfold JSMap.keys. induction m as [|[k v] r IH]; simpl; [tauto |].
  destruct (String.eqb_spec t k) as [->|Ht].
  - split; [discriminate | now left].
  - rewrite <- IH. split; [intros [E|H]; [congruence | trivial] | now right].
Qed.

Lemma map_keys_set {V : Type} (k : string) (v : V) (m : JSMap.t V) :
  JSMap.keys (JSMap.set k v m)
  = if in_dec string_dec k (JSMap.keys m) then JSMap.keys m
    else (JSMap.keys m ++ [k])%list.
Proof.
  unfold JSMap.keys. induction m as [|[k' v'] r IH]; simpl; [reflexivity |].
  destruct (String.eqb_spec k k') as [<-|Hk]; simpl.
  - destruct (string_dec k k); [reflexivity | congruence].
  - destruct (string_dec k' k) as [E|Hk']; [congruence |].
    rewrite IH. now destruct (in_dec string_dec k (map fst r)).
Qed.

Lemma map_keys_set_NoDup {V : Type} (k : string) (v : V) (m : JSMap.t V) :
  NoDup (JSMap.keys m) -> NoDup (JSMap.keys (JSMap.set k v m)).
Proof.
  intros H. rewrite map_keys_set.
  destruct (in_dec string_dec k (JSMap.keys m)) as [Hin|Hout]; trivial.
  apply NoDup_app; [exact H | repeat constructor; intros [] |].
  intros x Hx [<-|[]]. contradiction.
Qed.

Lemma countTag_total (m : JSMap.t Z) (item : string) :
  Spec.total (Markdown.countTag m item) = Spec.total m + 1.
Proof.
  unfold Markdown.countTag, Spec.total, JSMap.values.
  induction m as [|[k v] r IH]; simpl; [reflexivity |].
  destruct (String.eqb_spec item k) as [->|Hk]; simpl; lia.
Qed.

(** What the loop of [getAllTags] leaves in the map, started from any
    map. *)
Lemma tally_get (items : list string) (m : JSMap.t Z) (t : string) :
  JSMap.get t (fold_left Markdown.countTag items m)
  = let c := Z.of_nat (count_occ string_dec items t) in
    match JSMap.get t m with
    | Some n => Some (n + c)
    | None => if c =? 0 then None else Some c
    end.
Proof.
  revert m. induction items as [|x r IH]; intros m; cbv zeta.
  - simpl. destruct (JSMap.get t m); [f_equal; lia | reflexivity].
  - cbn [fold_left]. rewrite IH. cbv zeta.
    unfold Markdown.countTag at 1. rewrite map_get_set.
    cbn [count_occ]. destruct (string_dec x t) as [->|Hx].
    + rewrite String.eqb_refl.
      destruct (JSMap.get t m) as [n|].
      * f_equal. lia.
      * destruct (Z.eqb_spec (Z.of_nat (S (count_occ string_dec r t))) 0);
          [lia | f_equal; lia].
    + destruct (String.eqb_spec t x); [congruence | reflexivity].
Qed.

Lemma tally_keys_NoDup (items : list string) (m : JSMap.t Z) :
  NoDup (JSMap.keys m) ->
  NoDup (JSMap.keys (fold_left Markdown.countTag items m)).
Proof.
  revert m. induction items as [|x r IH]; intros m H; [exact H |].
  simpl. apply IH. now apply map_keys_set_NoDup.
Qed.

Lemma tally_total (items : list string) (m : JSMap.t Z) :
  Spec.total (fold_left Markdown.countTag items m)
  = Spec.total m + Z.of_nat (List.length items).
Proof.
  revert m. induction items as [|x r IH]; intros m.
  - simpl. lia.
  - cbn [fold_left List.length]. rewrite IH, countTag_total. lia.
Qed.

Lemma sorted_tags_perm {Content : Type}
  (compileMDX : string -> Markdown.Compiled Content) (files : list string) :
  Permutation
    (concat (map Markdown.tags
               (Markdown.getAllMetaData compileMDX files EmptyString)))
    (flat_map Markdown.tags
       (map (fun file => Markdown.frontmatter (compileMDX file)) files)).
Proof.
  rewrite <- flat_map_concat_map.
  apply Permutation_flat_map.
  rewrite getAllMetaData_unfold. apply sort_perm.
Qed.

Lemma getAllTags_get {Content : Type}
  (compileMDX : string -> Markdown.Compiled Content)
  (files : list string) (tag : string) :
  JSMap.get tag (Markdown.getAllTags compileMDX files)
  = match Spec.occurrences tag
            (map (fun file => Markdown.frontmatter (compileMDX file)) files)
    with
    | O => None
    | S n => Some (Z.of_nat (S n))
    end.
Proof.
  unfold Markdown.getAllTags, Spec.occurrences.
  rewrite tally_get. cbv zeta. cbn [JSMap.get JSMap.empty].
  pose proof (sorted_tags_perm compileMDX files) as Hp.
  rewrite Permutation_count_occ in Hp. rewrite (Hp tag).
  destruct (count_occ string_dec _ tag) as [|c]; reflexivity.
Qed.

(** X13.  [getAllTags] maps a tag to the number of times the tag is written
    in the frontmatter of the collection, and has no entry for a tag that is
    written nowhere. *)
Theorem X13_getAllTags_counts {Content : Type}
  (compileMDX : string -> Markdown.Compiled Content)
  (files : list string) (tag : string) :
  let n := Spec.occurrences tag
             (map (fun file => Markdown.frontmatter (compileMDX file)) files) in
  JSMap.get tag (Markdown.getAllTags compileMDX files)
  = if (n =? 0)%nat then None else Some (Z.of_nat n).
Proof.
  cbv zeta. rewrite getAllTags_get.
  now destruct (Spec.occurrences tag _).
Qed.

(** X14.  The map [getAllTags] returns has every tag once as a key, exactly
    the tags some document has, and its counts add up to the number of tags
    written in the collection. *)
Theorem X14_getAllTags_keys {Content : Type}
  (compileMDX : string -> Markdown.Compiled Content) (files : list string) :
  NoDup (JSMap.keys (Markdown.getAllTags compileMDX files)) /\
  (forall tag,
     In tag (JSMap.keys (Markdown.getAllTags compileMDX files)) <->
     exists file, In file files /\
                  In tag (Markdown.tags (Markdown.frontmatter (compileMDX file)))) /\
  Spec.total (Markdown.getAllTags compileMDX files)
  = Z.of_nat
      (List.length
         (flat_map Markdown.tags
            (map (fun file => Markdown.frontmatter (compileMDX file)) files))).
Proof.
  split; [| split].
  - apply tally_keys_NoDup. constructor.
  - intros tag. rewrite map_get_keys, getAllTags_get.
    unfold Spec.occurrences.
    set (items := flat_map Markdown.tags
                    (map (fun file => Markdown.frontmatter (compileMDX file))
                       files)).
    assert (In tag items <->
            exists file, In file files /\
              In tag (Markdown.tags (Markdown.frontmatter (compileMDX file))))
      as Hiff.
    { unfold items. rewrite in_flat_map. split.
      - intros [d [Hd Ht]]. apply in_map_iff in Hd as [file [<- Hf]].
        now exists file.
      - intros [file [Hf Ht]].
        exists (Markdown.frontmatter (compileMDX file)). split; [| exact Ht].
        apply (in_map (fun file => Markdown.frontmatter (compileMDX file))
                 _ _ Hf). }
    rewrite <- Hiff.
    destruct (count_occ string_dec items tag) as [|c] eqn:E.
    + apply (count_occ_not_In string_dec) in E. tauto.
    + split; [intros _ | discriminate].
      apply (count_occ_In string_dec). lia.
  - unfold Markdown.getAllTags. rewrite tally_total.
    rewrite (Permutation_length (sorted_tags_perm compileMDX files)).
    reflexivity.
Qed.

Lemma count_occ_NoDup (l : list string) (t : string) :
  NoDup l ->
  count_occ string_dec l t = if JS.includes l (Some t) then 1%nat else 0%nat.
Proof.
  intros H. destruct (JS.includes l (Some t)) eqn:I.
  - apply includes_In in I.
    rewrite NoDup_count_occ' in H. now apply H.
  - apply count_occ_not_In. intros Hin. apply includes_In in Hin. congruence.
Qed.

Lemma occurrences_filter (tag : string) (docs : list Markdown.MDXFrontmatter) :
  (forall d, In d docs -> NoDup (Markdown.tags d)) ->
  Spec.occurrences tag docs
  = List.length (filter (Markdown.hasTag tag) docs).
Proof.
  unfold Spec.occurrences.
  induction docs as [|d r IH]; intros H; [reflexivity |].
  cbn [flat_map filter]. rewrite count_occ_app.
  rewrite IH by (intros x Hx; apply H; now right).
  rewrite (count_occ_NoDup _ _ (H d (or_introl eq_refl))).
  unfold Markdown.hasTag at 2.
  now destruct (JS.includes (Markdown.tags d) (Some tag)).
Qed.

(** X15.  When no document lists a tag twice, the count [getAllTags] gives
    for a tag is the number of documents [getAllMetaData] lists under that
    tag, and a tag has a count exactly when that list is not empty. *)
Theorem X15_tag_count_is_listing_length {Content : Type}
  (compileMDX : string -> Markdown.Compiled Content)
  (files : list string) (c : ascii) (rest : string) :
  (forall file, In file files ->
     NoDup (Markdown.tags (Markdown.frontmatter (compileMDX file)))) ->
  let tag := String c rest in
  let listed := Markdown.getAllMetaData compileMDX files tag in
  JSMap.get tag (Markdown.getAllTags compileMDX files)
  = match listed with
    | [] => None
    | _ :: _ => Some (Z.of_nat (List.length listed))
    end.
Proof.
  intros Hnd. cbv zeta. rewrite getAllTags_get, getAllMetaData_unfold.
  cbv zeta. cbn [JS.truthy].
  set (docs := map (fun file => Markdown.frontmatter (compileMDX file)) files).
  assert (Spec.occurrences (String c rest) docs
          = List.length (filter (Markdown.hasTag (String c rest))
                           (JS.sort Markdown.byPublishedDesc docs))) as ->.
  { rewrite occurrences_filter.
    - rewrite <- (sort_filter _ _ byPublishedDesc_key).
      symmetry. apply Permutation_length, sort_perm.
    - intros d Hd. apply in_map_iff in Hd as [file [<- Hf]]. now apply Hnd. }
  now destruct (filter _ _).
Qed.

(** ** The further properties on the collection of three documents *)

Lemma fixture_readMDX_middle :
  Markdown.readMDX Fixture.compileMDX [Fixture.C; Fixture.A; Fixture.B] "bb"
  = Some {| Markdown.previous :=
              Some (Markdown.frontmatter (Fixture.compileMDX Fixture.C));
            Markdown.current :=
              Some (Markdown.load Fixture.compileMDX Fixture.B);
            Markdown.next :=
              Some (Markdown.frontmatter (Fixture.compileMDX Fixture.A)) |}.
Proof. vm_compute. reflexivity. Defined.

Lemma X7_readMDX_from_collection_witness :
  exists file,
    In file [Fixture.C; Fixture.A; Fixture.B] /\
    Markdown.slug (Markdown.frontmatter (Fixture.compileMDX file)) = "bb".
Proof.
  destruct (X7_readMDX_from_collection Fixture.compileMDX
              [Fixture.C; Fixture.A; Fixture.B] "bb" _ fixture_readMDX_middle)
    as [[file [Hf [_ [Hs _]]]] _].
  exists file. split; [exact Hf | exact Hs].
Defined.

Lemma X8_readMDX_sibling_order_witness :
  Markdown.published (Markdown.frontmatter (Fixture.compileMDX Fixture.B))
  <= Markdown.published (Markdown.frontmatter (Fixture.compileMDX Fixture.C)).
Proof.
  destruct (X8_readMDX_sibling_order Fixture.compileMDX
              [Fixture.C; Fixture.A; Fixture.B] "bb" _
              (Markdown.load Fixture.compileMDX Fixture.B)
              fixture_readMDX_middle eq_refl) as [Hprev _].
  apply (Hprev (Markdown.frontmatter (Fixture.compileMDX Fixture.C))).
  reflexivity.
Defined.

Lemma X9_readMDX_siblings_inverse_witness :
  exists r',
    Markdown.readMDX Fixture.compileMDX [Fixture.C; Fixture.A; Fixture.B] "ccc"
    = Some r' /\
    Markdown.next r'
    = Some (Markdown.frontmatter (Fixture.compileMDX Fixture.B)).
Proof.
  assert (NoDup (map (fun file =>
                        Markdown.slug
                          (Markdown.frontmatter (Fixture.compileMDX file)))
                   [Fixture.C; Fixture.A; Fixture.B])) as Hnd
    by (repeat constructor; simpl; intuition discriminate).
  destruct (X9_readMDX_siblings_inverse Fixture.compileMDX
              [Fixture.C; Fixture.A; Fixture.B] "bb" _
              Hnd fixture_readMDX_middle) as [Hprev _].
  apply (Hprev (Markdown.frontmatter (Fixture.compileMDX Fixture.C))).
  reflexivity.
Defined.

Lemma X10_listing_order_irrelevant_witness :
  Markdown.readMDX Fixture.compileMDX [Fixture.A; Fixture.B; Fixture.C] "bb"
  = Markdown.readMDX Fixture.compileMDX [Fixture.C; Fixture.A; Fixture.B] "bb".
Proof.
  destruct (X10_listing_order_irrelevant Fixture.compileMDX
              [Fixture.A; Fixture.B; Fixture.C]
              [Fixture.C; Fixture.A; Fixture.B]) as [H _].
  - repeat constructor; simpl; intuition discriminate.
  - apply (Permutation_cons_app [_] [_]), perm_swap.
  - apply H.
Defined.

Lemma X15_tag_count_is_listing_length_witness :
  JSMap.get "bb"
    (Markdown.getAllTags Fixture.compileMDX [Fixture.A; Fixture.B; Fixture.C])
  = Some 1.
Proof.
  apply (X15_tag_count_is_listing_length Fixture.compileMDX
           [Fixture.A; Fixture.B; Fixture.C] "b"%char "b").
  intros file Hf. simpl. repeat constructor. intros [].
Defined.

(** ** More on the reading time and on the ends of the collection *)

Lemma splitSpacesFrom_nonempty (s p : string) (inRun : bool) :
  (1 <= List.length (JS.splitSpacesFrom p inRun s))%nat.
Proof.
  revert p inRun. induction s as [|c r IH]; intros p inRun; [simpl; lia |].
  cbn [JS.splitSpacesFrom].
  destruct (JS.isSpace c), inRun; cbn [List.length]; try apply IH.
  specialize (IH EmptyString true). lia.
Qed.

Lemma splitSpacesFrom_append (s more p p' : string) (inRun : bool) :
  (List.length (JS.splitSpacesFrom p inRun s)
   <= List.length (JS.splitSpacesFrom p' inRun (s ++ more)))%nat.
Proof.
  revert p p' inRun. induction s as [|c r IH]; intros p p' inRun.
  - cbn [append]. apply splitSpacesFrom_nonempty.
  - cbn [append JS.splitSpacesFrom].
    destruct (JS.isSpace c), inRun; cbn [List.length];
      try apply le_n_S; apply IH.
Qed.

Lemma ceilDiv_monotone (n m : Z) :
  n <= m -> JS.ceilDiv n 200 <= JS.ceilDiv m 200.
Proof.
  intros H. unfold JS.ceilDiv. apply Z.div_le_mono; lia.
Qed.

(** X17.  Writing more at the end of a text never lowers its estimated
    reading time. *)
Theorem X17_estimateReadingTime_monotone (text more : string) :
  Markdown.estimateReadingTime text
  <= Markdown.estimateReadingTime (text ++ more).
Proof.
  unfold Markdown.estimateReadingTime, Markdown.wordsPerMinute, JS.splitSpaces.
  apply ceilDiv_monotone.
  pose proof (splitSpacesFrom_append text more EmptyString EmptyString false).
  lia.
Qed.

(** X18.  A document that is found has neither [previous] nor [next]
    exactly when it is the only document of the collection. *)
Theorem X18_readMDX_alone {Content : Type}
  (compileMDX : string -> Markdown.Compiled Content)
  (files : list string) (slug_ : string) (r : Markdown.Pagination Content) :
  Markdown.readMDX compileMDX files slug_ = Some r ->
  (Markdown.previous r = None /\ Markdown.next r = None <->
   List.length files = 1%nat).
Proof.
  intros H. apply readMDX_some in H as [i [d [[Hn _] [_ [Hprev Hnext]]]]].
  assert (List.length (Spec.sortedDocs compileMDX files) = List.length files)
    as Hlen.
  { rewrite (Permutation_length (sortedDocs_perm compileMDX files)).
    apply length_map. }
  assert (i < List.length files)%nat as Hi
    by (rewrite <- Hlen; apply nth_error_Some; congruence).
  rewrite Hprev, Hnext. split.
  - intros [Hp Hx]. apply option_map_none, nth_error_None in Hp.
    destruct i as [|j]; [lia |].
    apply option_map_none, nth_error_None in Hx. lia.
  - intros H1. assert (i = 0%nat) as -> by lia. split; trivial.
    assert (nth_error (Spec.sortedDocs compileMDX files) 1 = None) as ->;
      [| reflexivity].
    apply nth_error_None. lia.
Qed.

Lemma X18_readMDX_alone_witness :
  List.length [Fixture.C; Fixture.A; Fixture.B] <> 1%nat.
Proof.
  intros H.
  apply (X18_readMDX_alone Fixture.compileMDX
           [Fixture.C; Fixture.A; Fixture.B] "bb" _ fixture_readMDX_middle)
    in H as [Hp _].
  discriminate Hp.
Defined.
